(** * Propulsion-log post-processing scripts: a shallow embedding

    The repository holds three command-line scripts,
    [scripts/process_thrust_map.py], [scripts/process_efficiency.py] and
    [scripts/convert_thrust_lookup.py].  Each reads one CSV, derives and
    renames columns, groups or bins, and writes CSV tables.

    Numeric model.  A table cell is a number or a missing value (NaN).
    Numbers are exact rationals ([Qc]), so a mean is the exact quotient of
    a sum by a count; rounding of binary floating point and the infinities
    are outside the model.  Tables are numeric: every cell of a parsed CSV
    is a number or is missing.

    Library model.  The NumPy and pandas operations the scripts call are
    written out in the modules [np] and [pd] below, each with the
    behaviour the scripts rely on (pandas 2.x, NumPy 1.2x defaults).
    The three scripts are the modules [ProcessThrustMap],
    [ProcessEfficiency] and [ConvertThrustLookup]. *)

From Stdlib Require Import List String ZArith QArith Qcanon Qround Lqa.
From Stdlib Require Import Bool Lia Permutation Sorted.
Import ListNotations.

Open Scope string_scope.
Open Scope Qc_scope.

(** ** Numbers, cells and exceptions *)

Definition cell := option Qc.

Definition Qcltb (x y : Qc) : bool :=
  match x ?= y with Lt => true | _ => false end.

Definition Qcleb (x y : Qc) : bool :=
  match x ?= y with Gt => false | _ => true end.

Definition Qceqb (x y : Qc) : bool :=
  match x ?= y with Eq => true | _ => false end.

Definition notna (c : cell) : bool :=
  match c with Some _ => true | None => false end.

Definition cell_eqb (a b : cell) : bool :=
  match a, b with
  | Some x, Some y => Qceqb x y
  | _, _ => false
  end.

(** Arithmetic on cells: NaN is absorbing. *)
Definition cell_map2 (f : Qc -> Qc -> Qc) (a b : cell) : cell :=
  match a, b with
  | Some x, Some y => Some (f x y)
  | _, _ => None
  end.

Definition cell_mul : cell -> cell -> cell := cell_map2 Qcmult.
Definition cell_sub : cell -> cell -> cell := cell_map2 Qcminus.

(** Division; a zero divisor gives an infinity or NaN in floating point,
    which the exact model has no number for: the cell is left missing. *)
Definition cell_div (a b : cell) : cell :=
  match a, b with
  | Some x, Some y => if Qceqb y 0 then None else Some (x / y)
  | _, _ => None
  end.

Definition cell_scale (k : Qc) (a : cell) : cell := option_map (fun x => x * k) a.

Definition cell_abs (a : cell) : cell :=
  option_map (fun x => if Qcltb x 0 then - x else x) a.

(** The order [np.argsort] and [sort_values] sort by: numbers ascending,
    NaN after every number. *)
Definition cell_leb (a b : cell) : bool :=
  match a, b with
  | Some x, Some y => Qcleb x y
  | _, None => true
  | None, Some _ => false
  end.

Definition Z2Qc (z : Z) : Qc := Q2Qc (inject_Z z).
Definition nat2Qc (n : nat) : Qc := Z2Qc (Z.of_nat n).

(** The [ValueError]s that can occur, by origin. *)
Inductive value_error : Type :=
  | MissingInputColumns      (* process_efficiency's own column check *)
  | BinsNotMonotonic         (* pd.cut: bins must increase monotonically *)
  | BinEdgesNotUnique        (* pd.cut: bin edges must be unique *)
  | NegativeSampleCount      (* np.linspace: negative number of samples *)
  | EmptyReduction           (* np.min, np.max, np.argmin of an empty array *)
  | LengthMismatch           (* pd.DataFrame: arrays of different lengths *)
  | NaNToInteger.            (* int(round(nan)) *)

Inductive exn : Type :=
  | ValueError (why : value_error)
  | IndexError
  | KeyError (column : string)
  | SystemExit (code : Z).

Inductive result (A : Type) : Type :=
  | Ok (a : A)
  | Raise (e : exn).
Arguments Ok {A} a.
Arguments Raise {A} e.

Definition rbind {A B} (m : result A) (k : A -> result B) : result B :=
  match m with
  | Ok a => k a
  | Raise e => Raise e
  end.

Declare Scope result_scope.
Delimit Scope result_scope with result.
Notation "'let?' x ':=' m 'in' k" := (rbind m (fun x => k))
  (at level 10, x pattern, m at level 100, k at level 200) : result_scope.
Open Scope result_scope.

Fixpoint mapM {A B} (f : A -> result B) (l : list A) : result (list B) :=
  match l with
  | [] => Ok []
  | x :: t =>
      let? y := f x in
      let? r := mapM f t in
      Ok (y :: r)
  end.

(** ** List helpers shared by the array and table operations *)

(** Boolean-mask selection, [a[mask]]. *)
Fixpoint compress {A} (mask : list bool) (l : list A) : list A :=
  match mask, l with
  | b :: m, x :: t => if b then x :: compress m t else compress m t
  | _, _ => []
  end.

Fixpoint zip_with {A B C} (f : A -> B -> C) (l : list A) (r : list B) : list C :=
  match l, r with
  | x :: l', y :: r' => f x y :: zip_with f l' r'
  | _, _ => []
  end.

(** The numbers of an array, NaN skipped. *)
Fixpoint numbers (l : list cell) : list Qc :=
  match l with
  | [] => []
  | Some x :: t => x :: numbers t
  | None :: t => numbers t
  end.

Definition Qcsum (l : list Qc) : Qc := fold_right Qcplus 0 l.

(** Mean with [skipna=True]: over the numbers present, NaN if there is none. *)
Definition nanmean (l : list cell) : cell :=
  match numbers l with
  | [] => None
  | v => Some (Qcsum v / nat2Qc (List.length v))
  end.

(** Insertion into a strictly increasing list without repetition. *)
Fixpoint insert_uniq (x : Qc) (l : list Qc) : list Qc :=
  match l with
  | [] => [x]
  | y :: t =>
      match x ?= y with
      | Lt => x :: l
      | Eq => l
      | Gt => y :: insert_uniq x t
      end
  end.

Definition sort_uniq (l : list Qc) : list Qc := fold_right insert_uniq [] l.

(** Stable insertion into a list of indexed keys sorted by [cell_leb]. *)
Fixpoint insert_key (p : cell * nat) (l : list (cell * nat)) : list (cell * nat) :=
  match l with
  | [] => [p]
  | q :: t =>
      if cell_leb (fst p) (fst q) then p :: l else q :: insert_key p t
  end.

Fixpoint insert_sorted (x : Qc) (l : list Qc) : list Qc :=
  match l with
  | [] => [x]
  | y :: t => if Qcleb x y then x :: l else y :: insert_sorted x t
  end.

Definition sort_numbers (l : list Qc) : list Qc := fold_right insert_sorted [] l.

(** ** NumPy operations used by the scripts *)

Module np.

(** [np.linspace(start, stop, num)], endpoint included. *)
Definition linspace (start stop : cell) (num : Z) : result (list cell) :=
  if (num <? 0)%Z then Raise (ValueError NegativeSampleCount)
  else
    let div := (num - 1)%Z in
    let delta := cell_sub stop start in
    Ok (map (fun i : nat =>
               let zi := Z.of_nat i in
               if (0 <? div)%Z && (zi =? div)%Z then stop
               else if (0 <? div)%Z
                    then cell_map2 Qcplus start
                           (cell_scale (Z2Qc zi / Z2Qc div) delta)
                    else cell_map2 Qcplus start (cell_scale (Z2Qc zi) delta))
            (seq 0 (Z.to_nat num))).

(** A sorting permutation of an array: what [np.argsort] returns.  The
    default sort is not stable, so the order among equal keys is
    whatever the implementation leaves. *)
Definition sorts (a : list cell) (order : list nat) : Prop :=
  Permutation order (seq 0 (List.length a)) /\
  StronglySorted (fun x y => cell_leb x y = true)
    (map (fun i => nth i a None) order).

Definition argsort (a : list cell) : list nat :=
  map snd (fold_right insert_key [] (combine a (seq 0 (List.length a)))).

(** Another admissible sort: equal keys come out in reverse input order. *)
Definition argsort_reversed_ties (a : list cell) : list nat :=
  map snd (fold_right insert_key []
             (rev (combine a (seq 0 (List.length a))))).

(** Integer-array indexing [a[idx]]; an index past the end raises. *)
Definition take {A} (a : list A) (idx : list nat) : result (list A) :=
  mapM (fun i => match nth_error a i with
                 | Some x => Ok x
                 | None => Raise IndexError
                 end) idx.

Definition reduce (pick : Qc -> Qc -> Qc) (a : list cell) : result cell :=
  match a with
  | [] => Raise (ValueError EmptyReduction)
  | x :: t => Ok (fold_left (cell_map2 pick) t x)
  end.

(** [np.min] and [np.max]: NaN if the array holds one. *)
Definition min : list cell -> result cell :=
  reduce (fun x y => if Qcltb y x then y else x).
Definition max : list cell -> result cell :=
  reduce (fun x y => if Qcltb x y then y else x).

(** [np.argmin]: the first NaN if there is one, else the first minimum. *)
Fixpoint argmin_from (best : nat) (bv : cell) (i : nat) (a : list cell) : nat :=
  match a with
  | [] => best
  | x :: t =>
      match bv, x with
      | None, _ => best
      | Some _, None => i
      | Some b, Some v =>
          if Qcltb v b then argmin_from i x (S i) t
          else argmin_from best bv (S i) t
      end
  end.

Definition argmin (a : list cell) : result nat :=
  match a with
  | [] => Raise (ValueError EmptyReduction)
  | x :: t => Ok (argmin_from 0 x 1 t)
  end.

(** [np.meshgrid(v, f, indexing="ij")] followed by [ravel] on each grid. *)
Definition meshgrid_ij_ravel {A} (v f : list A) : list A * list A :=
  (flat_map (fun x => repeat x (List.length f)) v,
   List.concat (repeat f (List.length v))).

Definition ravel {A} (Z : list (list A)) : list A := List.concat Z.

(** [Z[:, :n]] with Python's slice bounds. *)
Definition slice_to {A} (n : Z) (row : list A) : list A :=
  if (0 <=? n)%Z then firstn (Z.to_nat n) row
  else firstn (List.length row - Z.to_nat (- n)) row.

End np.

(** [round(x)] on a float: to the nearest integer, ties to even. *)
Definition round_half_even (x : Qc) : Z :=
  let f := Qfloor x in
  let r := x - Z2Qc f in
  let half := Q2Qc (1 # 2) in
  if Qcltb r half then f
  else if Qcltb half r then (f + 1)%Z
  else if Z.even f then f else (f + 1)%Z.

Definition int_round (c : cell) : result Z :=
  match c with
  | Some x => Ok (round_half_even x)
  | None => Raise (ValueError NaNToInteger)
  end.

(** Python's two-argument [max(a, b)]: [b] if [b > a], else [a]. *)
Definition py_max (a : cell) (b : Qc) : cell :=
  match a with
  | Some x => Some (if Qcltb x b then b else x)
  | None => None
  end.

(** Signed 64-bit integers: the value of [z] after wrap-around. *)
Definition wrap_int64 (z : Z) : Z := ((z + 2 ^ 63) mod 2 ^ 64 - 2 ^ 63)%Z.

(** [x * y] on cells of two [int64] columns: the product wraps around
    silently.  ([int64] cells are integers, so [Qfloor] is their value.) *)
Definition mul_int64 (a b : cell) : cell :=
  match a, b with
  | Some x, Some y => Some (Z2Qc (wrap_int64 (Qfloor x * Qfloor y)))
  | _, _ => None
  end.

(** ** pandas operations used by the scripts *)

Definition Series := list cell.

(** A table: its columns in order, each with its header name. *)
Definition DataFrame := list (string * Series).

Module pd.

Definition columns (df : DataFrame) : list string := map fst df.

(** [c in df.columns] *)
Definition has_column (df : DataFrame) (c : string) : bool :=
  existsb (String.eqb c) (columns df).

Fixpoint get (df : DataFrame) (c : string) : option Series :=
  match df with
  | [] => None
  | (n, s) :: t => if String.eqb c n then Some s else get t c
  end.

(** [df[c]] *)
Definition getitem (df : DataFrame) (c : string) : result Series :=
  match get df c with
  | Some s => Ok s
  | None => Raise (KeyError c)
  end.

Definition nrows (df : DataFrame) : nat :=
  match df with
  | [] => 0
  | (_, s) :: _ => List.length s
  end.

(** [df[c] = s]: replaces the column in place, or appends a new last one. *)
Fixpoint setitem (df : DataFrame) (c : string) (s : Series) : DataFrame :=
  match df with
  | [] => [(c, s)]
  | (n, old) :: t =>
      if String.eqb c n then (n, s) :: t else (n, old) :: setitem t c s
  end.

Fixpoint renamed (mapping : list (string * string)) (c : string) : string :=
  match mapping with
  | [] => c
  | (old, new) :: t => if String.eqb c old then new else renamed t c
  end.

(** [df.rename(columns={old1: new1, ...})]: every header is looked up
    once in the mapping. *)
Definition rename (df : DataFrame) (mapping : list (string * string))
    : DataFrame :=
  map (fun p => (renamed mapping (fst p), snd p)) df.

(** [df[[c1, ..., cn]]] *)
Definition select (df : DataFrame) (cs : list string) : result DataFrame :=
  mapM (fun c => let? s := getitem df c in Ok (c, s)) cs.

(** [pd.DataFrame({...})] from arrays: all of one length. *)
Definition from_arrays (cols : list (string * Series)) : result DataFrame :=
  match cols with
  | [] => Ok []
  | (_, s) :: t =>
      if forallb (fun p => Nat.eqb (List.length (snd p)) (List.length s)) t
      then Ok cols
      else Raise (ValueError LengthMismatch)
  end.

(** Row mask of [dropna]: every column has a value in the row. *)
Fixpoint complete_rows (n : nat) (df : DataFrame) : list bool :=
  match df with
  | [] => repeat true n
  | (_, s) :: t => zip_with andb (map notna s) (complete_rows n t)
  end.

Definition filter_rows (mask : list bool) (df : DataFrame) : DataFrame :=
  map (fun p => (fst p, compress mask (snd p))) df.

Definition dropna (df : DataFrame) : DataFrame :=
  filter_rows (complete_rows (nrows df) df) df.

(** The values of column [s] on the rows whose key is [k]. *)
Definition group_values (keys : Series) (k : Qc) (s : Series) : Series :=
  compress (map (fun c => cell_eqb c (Some k)) keys) s.

(** [df.groupby(key, as_index=False).mean(numeric_only=True)]: one row
    per distinct key that is present (NaN keys are dropped), keys
    ascending; the key column first, then the mean of every other
    column over the group. *)
Definition groupby_mean (df : DataFrame) (key : string) : result DataFrame :=
  let? keys := getitem df key in
  let gk := sort_uniq (numbers keys) in
  Ok ((key, map Some gk)
      :: map (fun p => (fst p,
                        map (fun k => nanmean (group_values keys k (snd p))) gk))
           (filter (fun p => negb (String.eqb (fst p) key)) df)).

(** [df.sort_values(by)]: rows reordered by a sorting permutation of the
    key column, NaN last; [argsort] is the sort the library runs. *)
Definition sort_values (argsort : list cell -> list nat)
    (df : DataFrame) (by_ : string) : result DataFrame :=
  let? keys := getitem df by_ in
  let order := argsort keys in
  mapM (fun p => let? s := np.take (snd p) order in Ok (fst p, s)) df.

(** [s.quantile(q)]: linear interpolation between the two nearest order
    statistics of the values present; NaN if there is none. *)
Definition quantile (s : Series) (q : Qc) : cell :=
  let v := sort_numbers (numbers s) in
  match v with
  | [] => None
  | _ =>
      let h := nat2Qc (List.length v - 1) * q in
      let lo := Qfloor h in
      let frac := h - Z2Qc lo in
      let a := nth (Z.to_nat lo) v 0 in
      let b := nth (Nat.min (Z.to_nat lo + 1) (List.length v - 1)) v 0 in
      Some (a + (b - a) * frac)
  end.

(** [Index.is_monotonic_increasing]: non-decreasing and free of NaN. *)
Fixpoint is_monotonic_increasing (l : list cell) : bool :=
  match l with
  | [] => true
  | None :: _ => false
  | Some x :: t =>
      match t with
      | Some y :: _ => Qcleb x y && is_monotonic_increasing t
      | _ => is_monotonic_increasing t
      end
  end.

(** [np.searchsorted(edges, x, side="left")] on sorted edges. *)
Definition searchsorted_left (edges : list Qc) (x : Qc) : nat :=
  List.length (filter (fun e => Qcltb e x) edges).

(** The bin code of one value in [pd.cut(..., include_lowest=True)]:
    intervals are right-closed, the lowest edge belongs to the first. *)
Definition bin_code (edges : list Qc) (b0 : Qc) (c : cell) : option nat :=
  match c with
  | None => None
  | Some v =>
      let id := if Qceqb v b0 then 1%nat else searchsorted_left edges v in
      if Nat.eqb id 0 || Nat.eqb id (List.length edges) then None
      else Some (id - 1)%nat
  end.

(** [pd.cut(x, bins=edges, include_lowest=True)]: the category code of
    every row (or none), with the number of categories. *)
Definition cut (x : Series) (bins : list cell)
    : result (list (option nat) * nat) :=
  if negb (is_monotonic_increasing bins)
  then Raise (ValueError BinsNotMonotonic)
  else
    let edges := numbers bins in
    if Nat.ltb (List.length (sort_uniq edges)) (List.length edges)
       && negb (Nat.eqb (List.length edges) 2)
    then Raise (ValueError BinEdgesNotUnique)
    else
      match edges with
      | [] => Raise IndexError
      | b0 :: _ =>
          Ok (map (bin_code edges b0) x, (List.length edges - 1)%nat)
      end.

Definition code_is (k : nat) (c : option nat) : bool :=
  match c with
  | Some j => Nat.eqb j k
  | None => false
  end.

(** [df.groupby(categorical).agg({c: "mean", ...})]: one row per
    category, in category order, each the mean of the listed columns
    over the rows of that category; a category without rows has missing
    means (with [observed=True] it has no row at all, which the
    [dropna] that follows in the script makes the same table). *)
Definition groupby_codes_mean (df : DataFrame) (codes : list (option nat))
    (ncat : nat) (agg : list string) : result DataFrame :=
  mapM (fun c =>
          let? s := getitem df c in
          Ok (c, map (fun k => nanmean (compress (map (code_is k) codes) s))
                   (seq 0 ncat)))
       agg.

End pd.

(** ** Script runs: files written so far, and how the run ended *)

(** A CSV written with [to_csv(path, index=False)]: its path, and the
    table with its header names, column order and rows. *)
Definition csv_file : Type := string * DataFrame.

Definition IO (A : Type) : Type := list csv_file -> list csv_file * result A.

Definition io_ret {A} (a : A) : IO A := fun w => (w, Ok a).

Definition io_bind {A B} (m : IO A) (k : A -> IO B) : IO B :=
  fun w =>
    match m w with
    | (w', Ok a) => k a w'
    | (w', Raise e) => (w', Raise e)
    end.

Definition io_lift {A} (r : result A) : IO A := fun w => (w, r).

Definition io_raise {A} (e : exn) : IO A := fun w => (w, Raise e).

Definition to_csv (df : DataFrame) (path : string) : IO unit :=
  fun w => ((w ++ [(path, df)])%list, Ok tt).

Declare Scope io_scope.
Delimit Scope io_scope with io.
Notation "'do!' x '<-' m ';' k" := (io_bind m (fun x => k))
  (at level 10, x pattern, m at level 100, k at level 200) : io_scope.
Notation "'exec!' m ';' k" := (io_bind m (fun _ => k))
  (at level 10, m at level 100, k at level 200) : io_scope.

(** A run of a script from an empty output directory. *)
Definition run (m : IO unit) : list csv_file * result unit := m [].

Definition path_join (dir file : string) : string := dir ++ "/" ++ file.

(** ** scripts/process_thrust_map.py *)

Module ProcessThrustMap.

Record Args : Type := {
  input : string;
  name : string;
  outdir : option string        (* default None *)
}.

(** [repo_root] is [pathlib.Path(__file__).resolve().parents[1]]. *)
Definition resolve_repo_outdir (repo_root : string)
    (outdir_arg : option string) : string :=
  match outdir_arg with
  | Some d => if String.eqb d "" then path_join repo_root "data" else d
  | None => path_join repo_root "data"
  end.

Fixpoint pick_column (df : DataFrame) (aliases : list string) : option string :=
  match aliases with
  | [] => None
  | a :: t => if pd.has_column df a then Some a else pick_column df t
  end.

(** Every alias is a non-empty literal, so a picked column is truthy. *)
Definition ensure_thrust_newton (df : DataFrame)
    : result (DataFrame * option string) :=
  match pick_column df ["thrust_N"; "thrust"; "force_N"] with
  | Some thrust_col =>
      let df := if negb (String.eqb thrust_col "thrust_N")
                then pd.rename df [(thrust_col, "thrust_N")] else df in
      Ok (df, Some "thrust_N")
  | None =>
      match pick_column df ["thrust_g"; "force_g"] with
      | Some g_col =>
          let? g := pd.getitem df g_col in
          let df := pd.setitem df "thrust_N"
                      (map (cell_scale (Q2Qc (980665 # 100000000))) g) in
          Ok (df, Some "thrust_N")
      | None =>
          match pick_column df ["thrust_kgf"; "force_kgf"] with
          | Some kgf_col =>
              let? k := pd.getitem df kgf_col in
              let df := pd.setitem df "thrust_N"
                          (map (cell_scale (Q2Qc (980665 # 100000))) k) in
              Ok (df, Some "thrust_N")
          | None => Ok (df, None)
          end
      end
  end.

Definition add_power_if_possible (df : DataFrame) : result DataFrame :=
  let v := pick_column df ["voltage_V"; "voltage"; "V"; "battery_V"] in
  let i := pick_column df ["current_A"; "current"; "I"] in
  match v, i with
  | Some v, Some i =>
      let? vs := pd.getitem df v in
      let? cs := pd.getitem df i in
      Ok (pd.setitem df "power_W" (zip_with cell_mul vs cs))
  | _, _ => Ok df
  end.

Definition option_string_eqb (a b : option string) : bool :=
  match a, b with
  | Some x, Some y => String.eqb x y
  | None, None => true
  | _, _ => false
  end.

Definition in_columns (df : DataFrame) (c : option string) : bool :=
  match c with
  | Some n => pd.has_column df n
  | None => false
  end.

Fixpoint drop_none (l : list (option string)) : list string :=
  match l with
  | [] => []
  | Some c :: t => c :: drop_none t
  | None :: t => drop_none t
  end.

(** Whether the thrust column that [ensure_thrust_newton] reports is
    of a numeric dtype, for the table [df] as parsed.  The columns of a
    file without data rows are parsed with dtype object; a column
    computed with [astype(float)] is float64, and so is every parsed
    column of a numeric file that has rows. *)
Definition thrust_is_numeric (df : DataFrame) : bool :=
  negb (Nat.eqb (pd.nrows df) 0)
  || match pick_column df ["thrust_N"; "thrust"; "force_N"] with
     | Some _ => false
     | None => true
     end.

(** One of the two mappings: complete rows of the two columns, grouped
    by the key, averaged, sorted by the key, headers renamed.
    [mean(numeric_only=True)] averages the thrust column if its dtype is
    [numeric], and drops it otherwise. *)
Definition thrust_mapping (argsort : list cell -> list nat) (numeric : bool)
    (df : DataFrame) (key_col thrust_col key_out : string)
    : result DataFrame :=
  let? two := pd.select df [key_col; thrust_col] in
  let two := pd.dropna two in
  let? grouped := pd.groupby_mean two key_col in
  let grouped :=
    if numeric then grouped
    else filter (fun p => String.eqb (fst p) key_col
                          || negb (String.eqb (fst p) thrust_col)) grouped in
  let? sorted := pd.sort_values argsort grouped key_col in
  Ok (pd.rename sorted [(key_col, key_out); (thrust_col, "thrust_N")]).

(** [main] on the table [pd.read_csv] returned.  [argsort] is the sort
    that [sort_values] runs.  Creating the output directory and the
    progress messages on standard output are not modelled. *)
Definition main (argsort : list cell -> list nat) (repo_root : string)
    (df : DataFrame) (args : Args) : IO unit :=
  let outdir := resolve_repo_outdir repo_root (outdir args) in
  let numeric := thrust_is_numeric df in
  (do! (df, thrust_col) <- io_lift (ensure_thrust_newton df);
   do! df <- io_lift (add_power_if_possible df);
   let throttle_col :=
     pick_column df ["throttle_pct"; "throttle_percent"; "throttle"] in
   let rpm_col := pick_column df ["rpm"; "motor_rpm"] in
   let wrote_any := false in
   do! wrote_any <-
     match throttle_col, thrust_col with
     | Some throttle_col, Some thrust_col =>
         do! throttle <- io_lift
           (thrust_mapping argsort numeric df throttle_col thrust_col "throttle_pct");
         exec! to_csv throttle
           (path_join outdir ("thrustmap_throttle_" ++ name args ++ ".csv"));
         io_ret true
     | _, _ => io_ret wrote_any
     end;
   do! wrote_any <-
     match rpm_col, thrust_col with
     | Some rpm_col, Some thrust_col =>
         do! rpm <- io_lift
           (thrust_mapping argsort numeric df rpm_col thrust_col "rpm");
         exec! to_csv rpm
           (path_join outdir ("thrustmap_rpm_" ++ name args ++ ".csv"));
         io_ret true
     | _, _ => io_ret wrote_any
     end;
   let keep_cols :=
     filter (fun c => in_columns df c
                      || existsb (option_string_eqb c)
                           [thrust_col; throttle_col; rpm_col])
       [Some "time_s"; throttle_col; rpm_col; thrust_col;
        Some "voltage_V"; Some "current_A"; Some "power_W"] in
   let keep_cols := drop_none keep_cols in
   do! wrote_any <-
     match keep_cols with
     | _ :: _ =>
         do! clean <- io_lift (pd.select df keep_cols);
         exec! to_csv clean
           (path_join outdir ("thrustmap_clean_" ++ name args ++ ".csv"));
         io_ret true
     | [] => io_ret wrote_any
     end;
   if negb wrote_any then io_raise (SystemExit 1) else io_ret tt)%io.

End ProcessThrustMap.

(** ** scripts/process_efficiency.py *)

Module ProcessEfficiency.

Record Args : Type := {
  input : string;
  name : string;
  outdir : string;              (* default "data" *)
  bins : Z                      (* default 12 *)
}.

Definition energy_per_km (power_W speed_mps : Series) : Series :=
  map (cell_scale (Z2Qc 1000 / Z2Qc 3600)) (zip_with cell_div power_W speed_mps).

(** [ints] are the headers of the columns that [pd.read_csv] parsed as
    [int64], those whose every cell is an integer literal; the other
    columns are [float64]. *)
Definition is_int64 (ints : list string) (c : string) : bool :=
  existsb (String.eqb c) ints.

(** The power derivation of [main].  The two columns are multiplied as
    they were parsed, without [astype(float)]: two [int64] columns give
    an [int64] product. *)
Definition derive_power (ints : list string) (df : DataFrame) : result DataFrame :=
  if pd.has_column df "voltage_V" && pd.has_column df "current_A"
  then
    let? v := pd.getitem df "voltage_V" in
    let? c := pd.getitem df "current_A" in
    let mul := if is_int64 ints "voltage_V" && is_int64 ints "current_A"
               then mul_int64 else cell_mul in
    Ok (pd.setitem df "power_W" (zip_with mul v c))
  else Ok df.

(** The column check of [main]: true when the run must be refused.  (The
    list [need] built just before it is not used.) *)
Definition lacks_required (df : DataFrame) : bool :=
  negb (pd.has_column df "speed_mps")
  || (negb (pd.has_column df "power_W")
      && negb (pd.has_column df "thrust_sum_N")).

Definition agg_columns (df : DataFrame) : list string :=
  (["speed_mps"]
   ++ (if pd.has_column df "power_W" then ["power_W"] else [])
   ++ (if pd.has_column df "thrust_sum_N" then ["thrust_sum_N"] else []))%list.

(** The binning and averaging of [main] once the bin edges are
    computed: [pd.cut], [groupby(...).agg(...)], [dropna], and the
    energy column.  The categorical column [speed_bin] that [main]
    stores in [df] is carried here as [codes]: it is read by the
    [groupby] only, and is none of the aggregated columns.
    [reset_index(drop=True)] renumbers the rows and changes no cell. *)
Definition bin_and_average (df : DataFrame) (speed : Series) (edges : list cell)
    : result DataFrame :=
  let? (codes, ncat) := pd.cut speed edges in
  let? g := pd.groupby_codes_mean df codes ncat (agg_columns df) in
  let g := pd.dropna g in
  if pd.has_column g "power_W"
  then
    let? p := pd.getitem g "power_W" in
    let? s := pd.getitem g "speed_mps" in
    Ok (pd.setitem g "energy_Wh_per_km" (energy_per_km p s))
  else Ok g.

(** From the checked table to the table that is written: the edges run
    from the 5th to the 95th percentile of the speed. *)
Definition aggregate (df : DataFrame) (nbins : Z) : result DataFrame :=
  let? speed := pd.getitem df "speed_mps" in
  let smin := pd.quantile speed (Q2Qc (5 # 100)) in
  let smax := pd.quantile speed (Q2Qc (95 # 100)) in
  let? edges := np.linspace smin smax (nbins + 1) in
  bin_and_average df speed edges.

(** [main] on the table [pd.read_csv] returned, [ints] being its
    [int64] columns. *)
Definition main (ints : list string) (df : DataFrame) (args : Args) : IO unit :=
  (do! df <- io_lift (derive_power ints df);
   if lacks_required df
   then io_raise (ValueError MissingInputColumns)
   else
     do! g <- io_lift (aggregate df (bins args));
     to_csv g (path_join (outdir args) ("efficiency_" ++ name args ++ ".csv")))%io.

End ProcessEfficiency.

(** ** scripts/convert_thrust_lookup.py *)

Module ConvertThrustLookup.

Record Args : Type := {
  input : string;
  name : string;
  outdir : option string;       (* default None *)
  voltage : option Qc;          (* default None *)
  min_cmd : option cell;        (* default None; [Some None] is nan *)
  max_cmd : option cell         (* default None; [Some None] is nan *)
}.

Record Meta : Type := {
  meta_N : Z; fmin : cell; fmax : cell; vmin : cell; vmax : cell
}.

Definition resolve_repo_outdir (repo_root : string)
    (outdir_arg : option string) : string :=
  match outdir_arg with
  | Some d => if String.eqb d "" then path_join repo_root "data" else d
  | None => path_join repo_root "data"
  end.

(** [meta[i]] *)
Definition item (row : list cell) (i : nat) : result cell :=
  match nth_error row i with
  | Some c => Ok c
  | None => Raise IndexError
  end.

(** [data] is what [np.loadtxt(path, delimiter=",")] parsed: the rows of
    the file, all of one length.  A file of a single row or a single
    column loads as a one-dimensional array, on which [data[0, :]]
    raises. *)
Definition read_lookup (data : list (list cell))
    : result (list cell * list cell * list (list cell) * Meta) :=
  match data with
  | meta :: Z =>
      if Nat.ltb (List.length data) 2 || Nat.ltb (List.length meta) 2
      then Raise IndexError
      else
        let? m0 := item meta 0 in
        let? N := int_round m0 in
        let Z := if negb (Z.of_nat (List.length Z) =? N)%Z
                    || negb (Z.of_nat (List.length meta) =? N)%Z
                 then map (np.slice_to N) Z else Z in
        let? fmin := item meta 1 in
        let? fmax := item meta 2 in
        let? vmin := item meta 3 in
        let? vmax := item meta 4 in
        let? forces := np.linspace fmin fmax N in
        let? voltages := np.linspace vmin vmax N in
        Ok (voltages, forces, Z,
            {| meta_N := N; fmin := fmin; fmax := fmax;
               vmin := vmin; vmax := vmax |})
  | [] => Raise IndexError
  end.

Definition melt_grid (voltages forces : list cell) (Z : list (list cell))
    : result DataFrame :=
  let '(V, F) := np.meshgrid_ij_ravel voltages forces in
  pd.from_arrays [("voltage_V", V); ("force_N", F); ("cmd", np.ravel Z)].

Definition slice_voltage_curve (voltages forces : list cell)
    (Z : list (list cell)) (target_voltage : option Qc)
    : result (cell * list cell * list cell) :=
  let? idx :=
    match target_voltage with
    | None => Ok (List.length voltages / 2)%nat
    | Some t =>
        np.argmin (map (fun v => cell_abs (cell_sub v (Some t))) voltages)
    end in
  let? v_sel := item voltages idx in
  let? cmd_row :=
    match nth_error Z idx with
    | Some r => Ok r
    | None => Raise IndexError
    end in
  Ok (v_sel, forces, cmd_row).

Definition invert_cmd_vs_force_to_force_vs_cmd
    (argsort : list cell -> list nat) (cmd force : list cell)
    : result (list cell * list cell) :=
  let order := argsort cmd in
  let? cmd_s := np.take cmd order in
  let? force_s := np.take force order in
  let? df := pd.from_arrays [("cmd", cmd_s); ("thrust_N", force_s)] in
  let? df := pd.groupby_mean df "cmd" in
  let? c := pd.getitem df "cmd" in
  let? t := pd.getitem df "thrust_N" in
  Ok (c, t).

Definition eps : Qc := Q2Qc (1 # 1000000000).

(** The throttle normalisation of [main]: [cmin], [cmax], [span] and the
    column [throttle_pct].  [--min-cmd] and [--max-cmd] are parsed with
    [type=float], which accepts nan. *)
Definition normalize_throttle (cmd_1d : list cell) (min_cmd max_cmd : option cell)
    : result (cell * list cell) :=
  let? cmin := match min_cmd with
               | None => np.min cmd_1d
               | Some m => Ok m
               end in
  let? cmax := match max_cmd with
               | None => np.max cmd_1d
               | Some m => Ok m
               end in
  let span := py_max (cell_sub cmax cmin) eps in
  Ok (span,
      map (fun c => cell_scale (Z2Qc 100) (cell_div (cell_sub c cmin) span))
        cmd_1d).

(** [main] on the array [np.loadtxt] returned.  [argsort] is the sort
    behind [np.argsort].  The scalar [v_sel] is broadcast down the
    column [voltage_V]. *)
Definition main (argsort : list cell -> list nat) (repo_root : string)
    (data : list (list cell)) (args : Args) : IO unit :=
  let outdir := resolve_repo_outdir repo_root (outdir args) in
  (do! (voltages, forces, Z, meta) <- io_lift (read_lookup data);
   do! df_long <- io_lift (melt_grid voltages forces Z);
   exec! to_csv df_long
     (path_join outdir ("thrust_lookup_long_" ++ name args ++ ".csv"));
   do! (v_sel, f_vec, cmd_vec) <-
     io_lift (slice_voltage_curve voltages forces Z (voltage args));
   do! (cmd_1d, thrust_1d) <-
     io_lift (invert_cmd_vs_force_to_force_vs_cmd argsort cmd_vec f_vec);
   do! (span, throttle_pct) <-
     io_lift (normalize_throttle cmd_1d (min_cmd args) (max_cmd args));
   do! df_curve <- io_lift
     (pd.from_arrays [("cmd", cmd_1d);
                      ("throttle_pct", throttle_pct);
                      ("thrust_N", thrust_1d);
                      ("voltage_V", repeat v_sel (List.length cmd_1d))]);
   to_csv df_curve
     (path_join outdir ("thrustmap_throttle_from_lookup_" ++ name args ++ ".csv")))%io.

End ConvertThrustLookup.

(** The three scripts, each with what it reads and its arguments. *)
Inductive invocation : Type :=
  | RunThrustMap (repo_root : string) (csv : DataFrame)
      (args : ProcessThrustMap.Args)
  | RunEfficiency (ints : list string) (csv : DataFrame)
      (args : ProcessEfficiency.Args)
  | RunLookup (repo_root : string) (grid : list (list cell))
      (args : ConvertThrustLookup.Args).

(** A run under a given implementation of the library's unstable sort. *)
Definition execute (argsort : list cell -> list nat) (i : invocation)
    : list csv_file * result unit :=
  match i with
  | RunThrustMap root csv args => run (ProcessThrustMap.main argsort root csv args)
  | RunEfficiency ints csv args => run (ProcessEfficiency.main ints csv args)
  | RunLookup root grid args => run (ConvertThrustLookup.main argsort root grid args)
  end.

(** * Vocabulary of the statements *)

(** A cell holding the integer [n]. *)
Definition q (n : Z) : cell := Some (Z2Qc n).

(** [pick_column] returns the first alias, in the order of the tuple,
    that is a header of the table. *)
Inductive first_present (df : DataFrame) : list string -> option string -> Prop :=
  | fp_none : first_present df [] None
  | fp_here a t : In a (pd.columns df) -> first_present df (a :: t) (Some a)
  | fp_later a t r : ~ In a (pd.columns df) -> first_present df t r ->
      first_present df (a :: t) r.

(** Column [p] holds, row by row, the product of columns [v] and [c]:
    the number [x * y] where both hold a number, a missing value where
    either is missing. *)
Definition row_product (v c p : Series) : Prop :=
  List.length p = Nat.min (List.length v) (List.length c) /\
  forall r a b, nth_error v r = Some a -> nth_error c r = Some b ->
    nth_error p r = Some (match a, b with
                          | Some x, Some y => Some (x * y)
                          | _, _ => None
                          end).



(** Column [p] holds, row by row, column [s] times the constant [k]:
    the number [x * k] where [s] holds the number [x], a missing value
    where [s] has none. *)
Definition row_scaled (k : Qc) (s p : Series) : Prop :=
  List.length p = List.length s /\
  forall r a, nth_error s r = Some a ->
    nth_error p r = Some (match a with
                          | Some x => Some (x * k)
                          | None => None
                          end).

(** The table with header [c] retitled [new], everything else as it was. *)
Definition retitled (df : DataFrame) (c new : string) : DataFrame :=
  map (fun p => (if String.eqb (fst p) c then new else fst p, snd p)) df.

Definition voltage_aliases : list string := ["voltage_V"; "voltage"; "V"; "battery_V"].
Definition current_aliases : list string := ["current_A"; "current"; "I"].
Definition newton_aliases : list string := ["thrust_N"; "thrust"; "force_N"].
Definition gram_aliases : list string := ["thrust_g"; "force_g"].
Definition kgf_aliases : list string := ["thrust_kgf"; "force_kgf"].

(** The rows of a two-column table are the pairs (key, value).  The
    values of the rows whose key is [k]: *)
Definition group_of (rows : list (cell * cell)) (k : Qc) : list cell :=
  map snd (filter (fun p => cell_eqb (fst p) (Some k)) rows).

(** The distinct keys present, ascending, each with the mean of its group. *)
Definition group_table (rows : list (cell * cell)) : list Qc * list cell :=
  let gk := sort_uniq (numbers (map fst rows)) in
  (gk, map (fun k => nanmean (group_of rows k)) gk).


Definition numeric (c : cell) : Prop := c <> None.

(** Order of indexed keys during the insertion sort. *)
Definition key_le (a b : cell * nat) : Prop := cell_leb (fst a) (fst b) = true.


(** ** Speed bins of process_efficiency *)

(** Edge [k] of [nbins] equal-width bins between [lo] and [hi]. *)
Definition edge (lo hi : Qc) (nbins : Z) (k : nat) : Qc :=
  lo + (hi - lo) * (Z2Qc (Z.of_nat k) / Z2Qc nbins).

(** All the edges, as [np.linspace] lays them out. *)
Definition edges (lo hi : Qc) (nbins : Z) : list Qc :=
  map (edge lo hi nbins) (seq 0 (S (Z.to_nat nbins))).

(** ** Bins between given edges *)






(** Linear interpolation at quantile [q] in the ascending values [v]. *)
Definition interpolate (v : list Qc) (q : Qc) : Qc :=
  let h := nat2Qc (List.length v - 1) * q in
  let i := Z.to_nat (Qfloor h) in
  let a := nth i v 0 in
  let b := nth (Nat.min (i + 1) (List.length v - 1)) v 0 in
  a + (b - a) * (h - Z2Qc (Qfloor h)).

(** [p] is the [q]-quantile of the values present in [s]. *)
Definition percentile (s : Series) (q p : Qc) : Prop :=
  exists v, Permutation v (numbers s) /\ StronglySorted Qcle v /\ v <> [] /\
            p = interpolate v q.







(** The values of column [c], nothing if the table has no such column. *)
Definition column (df : DataFrame) (c : string) : Series :=
  match pd.get df c with
  | Some s => s
  | None => []
  end.


Definition efficiency_path (args : ProcessEfficiency.Args) : string :=
  path_join (ProcessEfficiency.outdir args)
    ("efficiency_" ++ ProcessEfficiency.name args ++ ".csv").

(** The column requirement of process_efficiency fails on the table:
    no [speed_mps], or neither [power_W] nor [thrust_sum_N]. *)
Definition lacks_needed_columns (df : DataFrame) : Prop :=
  ~ In "speed_mps" (pd.columns df) \/
  (~ In "power_W" (pd.columns df) /\ ~ In "thrust_sum_N" (pd.columns df)).

(** An exception other than the one of process_efficiency's column check. *)
Definition not_column_check (e : exn) : Prop := e <> ValueError MissingInputColumns.

(** ** Files of a process_thrust_map run *)

Definition throttle_aliases : list string :=
  ["throttle_pct"; "throttle_percent"; "throttle"].
Definition rpm_aliases : list string := ["rpm"; "motor_rpm"].

Definition thrust_map_path (root : string) (args : ProcessThrustMap.Args)
    (kind : string) : string :=
  path_join (ProcessThrustMap.resolve_repo_outdir root (ProcessThrustMap.outdir args))
    ("thrustmap_" ++ kind ++ "_" ++ ProcessThrustMap.name args ++ ".csv").

(** The headers of the clean table, as [main] lists them. *)
Definition kept_headers (df : DataFrame) (thrust_col throttle_col rpm_col : option string)
    : list string :=
  ProcessThrustMap.drop_none
    (filter (fun c => ProcessThrustMap.in_columns df c
                      || existsb (ProcessThrustMap.option_string_eqb c)
                           [thrust_col; throttle_col; rpm_col])
       [Some "time_s"; throttle_col; rpm_col; thrust_col;
        Some "voltage_V"; Some "current_A"; Some "power_W"]).

(** The file a mapping block writes, if its two columns were found. *)
Definition mapping_file (argsort : list cell -> list nat) (numeric : bool)
    (df : DataFrame)
    (key_col thrust_col : option string) (key_out path : string) : list csv_file :=
  match key_col, thrust_col with
  | Some k, Some t =>
      match ProcessThrustMap.thrust_mapping argsort numeric df k t key_out with
      | Ok T => [(path, T)]
      | Raise _ => []
      end
  | _, _ => []
  end.

(** The table with the columns [cs] of [df], in that order. *)
Definition projection (df : DataFrame) (cs : list string) : DataFrame :=
  map (fun c => (c, column df c)) cs.


(** Some voltage alias and some current alias are both headers of [df]. *)
Definition has_power_inputs (df : DataFrame) : Prop :=
  (exists v, In v voltage_aliases /\ In v (pd.columns df)) /\
  (exists c, In c current_aliases /\ In c (pd.columns df)).

(** The seven headers [ensure_thrust_newton] takes a thrust from. *)
Definition thrust_aliases : list string :=
  (newton_aliases ++ gram_aliases ++ kgf_aliases)%list.

(** The clean file of a run, if any header is kept. *)
Definition clean_file (df : DataFrame) (keep : list string) (path : string)
    : list csv_file :=
  match keep with
  | [] => []
  | _ :: _ => [(path, projection df keep)]
  end.

(** Some header of [aliases] is a header of [df]. *)
Definition has_any (df : DataFrame) (aliases : list string) : bool :=
  existsb (pd.has_column df) aliases.


(** The headers the clean table may have, in the order [main] lists them. *)
Definition clean_candidates (thrust_col throttle_col rpm_col : option string)
    : list string :=
  ProcessThrustMap.drop_none
    [Some "time_s"; throttle_col; rpm_col; thrust_col;
     Some "voltage_V"; Some "current_A"; Some "power_W"].

(** ** Throttle normalisation of convert_thrust_lookup *)



(** ** The lookup file of convert_thrust_lookup *)

(** [n] equally spaced values from [lo] to [hi], both included. *)
Definition axis (lo hi : Qc) (n : nat) : list Qc :=
  map (edge lo hi (Z.of_nat n - 1)) (seq 0 n).

(** Distance between two numbers, as [np.abs(a - b)]. *)
Definition distance (a b : Qc) : Qc :=
  if Qcltb (a - b) 0 then - (a - b) else a - b.

Definition lookup_path (root : string) (args : ConvertThrustLookup.Args)
    (prefix : string) : string :=
  path_join (ConvertThrustLookup.resolve_repo_outdir root
               (ConvertThrustLookup.outdir args))
    (prefix ++ ConvertThrustLookup.name args ++ ".csv").

(** The header of the table process_efficiency writes: the aggregated
    columns the input has, in the order speed, power, thrust, then the
    energy column when there is a power column. *)
Definition efficiency_headers (df : DataFrame) : list string :=
  (filter (pd.has_column df) ["speed_mps"; "power_W"; "thrust_sum_N"]
   ++ (if pd.has_column df "power_W" then ["energy_Wh_per_km"] else []))%list.

(** Energy per distance in Wh/km of power [p] in W at speed [s] in m/s. *)
Definition wh_per_km (p s : Qc) : Qc := p / s * (Z2Qc 1000 / Z2Qc 3600).
(** * Properties *)

(** ** Comparisons on numbers *)

Lemma Qcltb_lt (x y : Qc) : Qcltb x y = true <-> x < y.
Proof.
  unfold Qcltb. rewrite Qclt_alt. destruct (x ?= y); split; congruence.
Qed.

Lemma Qcleb_le (x y : Qc) : Qcleb x y = true <-> x <= y.
Proof.
  unfold Qcleb. rewrite Qcle_alt. destruct (x ?= y); split; congruence.
Qed.



Lemma Qcltb_ge (x y : Qc) : Qcltb x y = false <-> y <= x.
Proof.
  split; intro H.
  - apply Qcnot_lt_le. intro L. apply Qcltb_lt in L. congruence.
  - destruct (Qcltb x y) eqn:E; [|reflexivity].
    apply Qcltb_lt in E. exfalso. now apply (Qcle_not_lt _ _ H).
Qed.

Lemma Qcleb_gt (x y : Qc) : Qcleb x y = false <-> y < x.
Proof.
  split; intro H.
  - apply Qcnot_le_lt. intro L. apply Qcleb_le in L. congruence.
  - destruct (Qcleb x y) eqn:E; [|reflexivity].
    apply Qcleb_le in E. exfalso. now apply (Qcle_not_lt _ _ E).
Qed.


Lemma cell_leb_total (a b : cell) : cell_leb a b = true \/ cell_leb b a = true.
Proof.
  destruct a as [x|], b as [y|]; simpl; auto.
  destruct (Qcleb x y) eqn:E; auto.
  right. apply Qcleb_le, Qclt_le_weak. now apply Qcleb_gt.
Qed.

Lemma cell_leb_trans (a b c : cell) :
  cell_leb a b = true -> cell_leb b c = true -> cell_leb a c = true.
Proof.
  destruct a as [x|], b as [y|], c as [z|]; simpl; try congruence.
  rewrite !Qcleb_le. apply Qcle_trans.
Qed.

(** ** Columns of a table *)

Lemma has_column_In (df : DataFrame) (c : string) :
  pd.has_column df c = true <-> In c (pd.columns df).
Proof.
  unfold pd.has_column. rewrite existsb_exists. split.
  - intros (x & Hx & E). apply String.eqb_eq in E. now subst.
  - intro H. exists c. split; auto. apply String.eqb_refl.
Qed.

Lemma get_Some_has (df : DataFrame) (c : string) :
  pd.has_column df c = true <-> exists s, pd.get df c = Some s.
Proof.
  rewrite has_column_In. induction df as [|[n s] t IH]; simpl.
  - split; [tauto | intros (s & H); discriminate].
  - destruct (String.eqb c n) eqn:E.
    + apply String.eqb_eq in E. subst. split; eauto.
    + apply String.eqb_neq in E. rewrite <- IH. split; [intros [H|H]|]; auto.
      congruence.
Qed.

Lemma get_None_has (df : DataFrame) (c : string) :
  pd.has_column df c = false <-> pd.get df c = None.
Proof.
  destruct (pd.has_column df c) eqn:E.
  - apply get_Some_has in E as (s & ->). split; discriminate.
  - split; auto. intros _. destruct (pd.get df c) eqn:G; auto.
    assert (pd.has_column df c = true) by (apply get_Some_has; eauto).
    congruence.
Qed.

Lemma get_In (df : DataFrame) (c : string) (s : Series) :
  pd.get df c = Some s -> In (c, s) df.
Proof.
  induction df as [|[n s'] t IH]; simpl; [discriminate|].
  destruct (String.eqb c n) eqn:E.
  - apply String.eqb_eq in E. intros [= ->]. subst. now left.
  - auto.
Qed.

Lemma getitem_get (df : DataFrame) (c : string) (s : Series) :
  pd.get df c = Some s -> pd.getitem df c = Ok s.
Proof. unfold pd.getitem. now intros ->. Qed.

Lemma get_setitem_same (df : DataFrame) (c : string) (s : Series) :
  pd.get (pd.setitem df c s) c = Some s.
Proof.
  induction df as [|[n o] t IH]; simpl.
  - now rewrite String.eqb_refl.
  - destruct (String.eqb c n) eqn:E; simpl; rewrite E; auto.
Qed.

Lemma get_setitem_other (df : DataFrame) (c d : string) (s : Series) :
  d <> c -> pd.get (pd.setitem df c s) d = pd.get df d.
Proof.
  intro N. induction df as [|[n o] t IH]; simpl.
  - apply String.eqb_neq in N. now rewrite N.
  - destruct (String.eqb c n) eqn:E; simpl.
    + apply String.eqb_eq in E. subst n.
      apply String.eqb_neq in N. now rewrite N.
    + destruct (String.eqb d n); auto.
Qed.

Lemma columns_setitem_new (df : DataFrame) (c : string) (s : Series) :
  pd.has_column df c = false ->
  pd.setitem df c s = (df ++ [(c, s)])%list.
Proof.
  induction df as [|[n o] t IH]; simpl; auto.
  unfold pd.has_column in *. simpl.
  destruct (String.eqb c n); simpl; [discriminate|].
  intro H. now rewrite IH.
Qed.

Lemma columns_setitem_old (df : DataFrame) (c : string) (s : Series) :
  pd.has_column df c = true ->
  pd.columns (pd.setitem df c s) = pd.columns df.
Proof.
  induction df as [|[n o] t IH]; simpl.
  - discriminate.
  - unfold pd.has_column in *. simpl.
    destruct (String.eqb c n); simpl; auto.
    intro H. f_equal. now apply IH.
Qed.



Lemma pick_column_first (df : DataFrame) (aliases : list string) :
  first_present df aliases (ProcessThrustMap.pick_column df aliases).
Proof.
  induction aliases as [|a t IH]; simpl.
  - constructor.
  - destruct (pd.has_column df a) eqn:E.
    + constructor. now apply has_column_In.
    + apply fp_later; auto. rewrite <- has_column_In. congruence.
Qed.

Lemma first_present_fun (df : DataFrame) (aliases : list string) (r1 r2 : option string) :
  first_present df aliases r1 -> first_present df aliases r2 -> r1 = r2.
Proof.
  intro H. revert r2. induction H; intros r2 H2; inversion H2; subst; auto;
    contradiction.
Qed.

Lemma first_present_Some (df : DataFrame) (aliases : list string) (a : string) :
  first_present df aliases (Some a) -> In a aliases /\ In a (pd.columns df).
Proof.
  intro H. remember (Some a) as r. induction H; try discriminate.
  - injection Heqr as ->. split; simpl; auto.
  - destruct (IHfirst_present Heqr). split; simpl; auto.
Qed.

Lemma first_present_None (df : DataFrame) (aliases : list string) :
  first_present df aliases None <-> (forall a, In a aliases -> ~ In a (pd.columns df)).
Proof.
  split.
  - intro H. remember None as r. induction H; try discriminate.
    + intros a [].
    + intros b [<-|Hb]; auto.
  - induction aliases as [|a t IH]; intro H.
    + constructor.
    + apply fp_later; [apply H; now left|]. apply IH. intros b Hb. apply H. now right.
Qed.

(** ** Derived columns: power and thrust in newtons *)


Lemma map_row_scaled (k : Qc) (s : Series) : row_scaled k s (map (cell_scale k) s).
Proof.
  split.
  - apply length_map.
  - intros r a H. rewrite (map_nth_error _ _ _ H). now destruct a.
Qed.

Lemma first_present_pick (df : DataFrame) (aliases : list string) (r : option string) :
  first_present df aliases r -> ProcessThrustMap.pick_column df aliases = r.
Proof.
  intro H. eapply first_present_fun; eauto. apply pick_column_first.
Qed.

Lemma rename_retitled (df : DataFrame) (c new : string) :
  pd.rename df [(c, new)] = retitled df c new.
Proof. reflexivity. Qed.

Lemma retitled_same (df : DataFrame) (c : string) : retitled df c c = df.
Proof.
  unfold retitled. induction df as [|[n s] t IH]; simpl; auto.
  rewrite IH. destruct (String.eqb n c) eqn:E; auto.
  apply String.eqb_eq in E. now subst.
Qed.










(** C3 as stated fails in process_efficiency: two columns of integer
    literals are parsed as [int64] and multiplied as such, and
    4000000000 * 4000000000 wraps around to -2446744073709551616. *)
Lemma int64_power_wraps :
  let df := [("speed_mps", [q 3]); ("voltage_V", [q 4000000000]);
             ("current_A", [q 4000000000])] in
  exists df' p,
    ProcessEfficiency.derive_power ["speed_mps"; "voltage_V"; "current_A"] df
    = Ok df' /\
    pd.get df' "power_W" = Some p /\
    ~ row_product [q 4000000000] [q 4000000000] p.
Proof.
  intro df. eexists _, _. split; [reflexivity|]. split; [reflexivity|].
  intros [_ H]. specialize (H 0%nat _ _ eq_refl eq_refl).
  apply (f_equal (option_map (option_map this))) in H.
  vm_compute in H. discriminate.
Qed.

(** C4.  [ensure_thrust_newton] normalizes thrust to newtons.  If the
    table has a column [thrust_N], [thrust] or [force_N], the first of
    them (in that order) is retitled [thrust_N] with its values
    unchanged; otherwise, if it has [thrust_g] or [force_g], a column
    [thrust_N] is added that equals that column times 9.80665e-3;
    otherwise, if it has [thrust_kgf] or [force_kgf], [thrust_N] is
    added equal to that column times 9.80665; otherwise the table is
    returned unchanged and no thrust column is reported. *)
Theorem ensure_thrust_newton_normalizes (df : DataFrame) :
  (forall c, first_present df newton_aliases (Some c) ->
     ProcessThrustMap.ensure_thrust_newton df
     = Ok (retitled df c "thrust_N", Some "thrust_N")) /\
  (forall c, first_present df newton_aliases None ->
     first_present df gram_aliases (Some c) ->
     exists g p,
       pd.get df c = Some g /\
       row_scaled (Q2Qc (980665 # 100000000)) g p /\
       ProcessThrustMap.ensure_thrust_newton df
       = Ok ((df ++ [("thrust_N", p)])%list, Some "thrust_N")) /\
  (forall c, first_present df newton_aliases None ->
     first_present df gram_aliases None ->
     first_present df kgf_aliases (Some c) ->
     exists k p,
       pd.get df c = Some k /\
       row_scaled (Q2Qc (980665 # 100000)) k p /\
       ProcessThrustMap.ensure_thrust_newton df
       = Ok ((df ++ [("thrust_N", p)])%list, Some "thrust_N")) /\
  (first_present df newton_aliases None ->
   first_present df gram_aliases None ->
   first_present df kgf_aliases None ->
   ProcessThrustMap.ensure_thrust_newton df = Ok (df, None)).
Proof.
  assert (Hnew : first_present df newton_aliases None ->
                 pd.has_column df "thrust_N" = false).
  { intro H. apply not_true_is_false. rewrite has_column_In.
    eapply first_present_None; eauto. simpl; auto. }
  unfold ProcessThrustMap.ensure_thrust_newton.
  fold newton_aliases gram_aliases kgf_aliases.
  repeat split.
  - intros c H. rewrite (first_present_pick _ _ _ H).
    destruct (String.eqb c "thrust_N") eqn:E; simpl.
    + apply String.eqb_eq in E. subst. now rewrite retitled_same.
    + now rewrite rename_retitled.
  - intros c H0 H. rewrite (first_present_pick _ _ _ H0), (first_present_pick _ _ _ H).
    apply first_present_Some in H as [_ H].
    apply has_column_In, get_Some_has in H as [g Hg].
    rewrite (getitem_get _ _ _ Hg). simpl.
    exists g. eexists. split; [assumption|]. split; [apply map_row_scaled|].
    now rewrite columns_setitem_new by auto.
  - intros c H0 H1 H.
    rewrite (first_present_pick _ _ _ H0), (first_present_pick _ _ _ H1),
      (first_present_pick _ _ _ H).
    apply first_present_Some in H as [_ H].
    apply has_column_In, get_Some_has in H as [g Hg].
    rewrite (getitem_get _ _ _ Hg). simpl.
    exists g. eexists. split; [assumption|]. split; [apply map_row_scaled|].
    now rewrite columns_setitem_new by auto.
  - intros H0 H1 H.
    now rewrite (first_present_pick _ _ _ H0), (first_present_pick _ _ _ H1),
      (first_present_pick _ _ _ H).
Qed.

Lemma ensure_thrust_newton_normalizes_witness :
  let df := [("throttle", [q 10; q 20]); ("force_g", [q 1000; None])] in
  exists g p,
    pd.get df "force_g" = Some g /\
    row_scaled (Q2Qc (980665 # 100000000)) g p /\
    ProcessThrustMap.ensure_thrust_newton df
    = Ok ((df ++ [("thrust_N", p)])%list, Some "thrust_N").
Proof.
  intro df.
  apply (proj1 (proj2 (ensure_thrust_newton_normalizes df))).
  - apply first_present_None. intros a Ha Hc. subst df. simpl in Ha, Hc.
    intuition (subst; discriminate).
  - apply fp_later; [simpl; intuition discriminate|].
    apply fp_here. simpl. auto.
Defined.

(** ** Reshaping the lookup grid *)

Lemma nth_error_concat_uniform {A} (n : nat) (L : list (list A)) :
  Forall (fun r => List.length r = n) L ->
  forall i j row, nth_error L i = Some row -> (j < n)%nat ->
                  nth_error (List.concat L) (i * n + j) = nth_error row j.
Proof.
  induction 1 as [|r L Hr HL IH]; intros i j row Hi Hj.
  - destruct i; discriminate.
  - destruct i as [|i]; simpl in *.
    + injection Hi as ->. apply nth_error_app1. lia.
    + rewrite nth_error_app2 by lia.
      replace (n + i * n + j - List.length r)%nat with (i * n + j)%nat by lia.
      now apply IH.
Qed.

Lemma length_concat_uniform {A} (n : nat) (L : list (list A)) :
  Forall (fun r => List.length r = n) L ->
  List.length (List.concat L) = (List.length L * n)%nat.
Proof.
  induction 1 as [|r L Hr HL IH]; simpl; auto.
  rewrite length_app, IH. lia.
Qed.

Lemma nth_error_repeat {A} (x : A) (n i : nat) :
  (i < n)%nat -> nth_error (repeat x n) i = Some x.
Proof.
  revert i. induction n; intros [|i] H; simpl; auto; try lia.
  apply IHn. lia.
Qed.

(** C2.  For every N-by-N grid [Z] with voltage axis [voltages] and force
    axis [forces] (N >= 1), [melt_grid] returns a table with the columns
    [voltage_V], [force_N], [cmd], in that order, and exactly N*N rows;
    the row at position i*N + j holds voltages[i], forces[j] and Z[i][j]
    (voltage-major order). *)
Theorem melt_grid_long_form (N : nat) (voltages forces : list cell)
    (Z : list (list cell)) :
  (1 <= N)%nat ->
  List.length voltages = N -> List.length forces = N ->
  List.length Z = N -> Forall (fun r => List.length r = N) Z ->
  exists V F C,
    ConvertThrustLookup.melt_grid voltages forces Z
    = Ok [("voltage_V", V); ("force_N", F); ("cmd", C)] /\
    List.length V = (N * N)%nat /\ List.length F = (N * N)%nat /\
    List.length C = (N * N)%nat /\
    forall i j v f row,
      nth_error voltages i = Some v -> nth_error forces j = Some f ->
      nth_error Z i = Some row ->
      nth_error V (i * N + j) = Some v /\
      nth_error F (i * N + j) = Some f /\
      nth_error C (i * N + j) = nth_error row j.
Proof.
  intros HN Hv Hf HZ Hrows.
  unfold ConvertThrustLookup.melt_grid, np.meshgrid_ij_ravel, np.ravel.
  rewrite flat_map_concat_map, Hv, Hf.
  set (V := List.concat (map (fun x => repeat x N) voltages)).
  set (F := List.concat (repeat forces N)).
  set (C := List.concat Z).
  assert (UV : Forall (fun r => List.length r = N) (map (fun x => repeat x N) voltages)).
  { apply Forall_forall. intros r Hr. apply in_map_iff in Hr as (x & <- & _).
    apply repeat_length. }
  assert (UF : Forall (fun r => List.length r = N) (repeat forces N)).
  { apply Forall_forall. intros r Hr. apply repeat_spec in Hr. now subst. }
  assert (LV : List.length V = (N * N)%nat).
  { unfold V. rewrite (length_concat_uniform N) by assumption.
    now rewrite length_map, Hv. }
  assert (LF : List.length F = (N * N)%nat).
  { unfold F. rewrite (length_concat_uniform N) by assumption.
    now rewrite repeat_length. }
  assert (LC : List.length C = (N * N)%nat).
  { unfold C. rewrite (length_concat_uniform N) by assumption. now rewrite HZ. }
  exists V, F, C. split; [|repeat split; auto].
  - unfold pd.from_arrays. simpl. rewrite LV, LF, LC, Nat.eqb_refl. reflexivity.
  - unfold V. assert (j < N)%nat by (rewrite <- Hf; apply nth_error_Some; congruence).
    rewrite (nth_error_concat_uniform N _ UV i j (repeat v N)); auto.
    + now apply nth_error_repeat.
    + now apply (map_nth_error (fun x => repeat x N)).
  - unfold F. assert (j < N)%nat by (rewrite <- Hf; apply nth_error_Some; congruence).
    assert (i < N)%nat by (rewrite <- Hv; apply nth_error_Some; congruence).
    rewrite (nth_error_concat_uniform N _ UF i j forces); auto.
    now apply nth_error_repeat.
  - unfold C. assert (j < N)%nat by (rewrite <- Hf; apply nth_error_Some; congruence).
    now apply (nth_error_concat_uniform N _ Hrows).
Qed.

Lemma melt_grid_long_form_witness :
  exists V F C,
    ConvertThrustLookup.melt_grid [q 3; q 4] [q 0; q 10] [[q 5; q 7]; [q 6; q 6]]
    = Ok [("voltage_V", V); ("force_N", F); ("cmd", C)] /\
    List.length V = (2 * 2)%nat /\ List.length F = (2 * 2)%nat /\
    List.length C = (2 * 2)%nat /\
    forall i j v f row,
      nth_error [q 3; q 4] i = Some v -> nth_error [q 0; q 10] j = Some f ->
      nth_error [[q 5; q 7]; [q 6; q 6]] i = Some row ->
      nth_error V (i * 2 + j) = Some v /\
      nth_error F (i * 2 + j) = Some f /\
      nth_error C (i * 2 + j) = nth_error row j.
Proof.
  apply (melt_grid_long_form 2); try reflexivity.
  - lia.
  - repeat constructor.
Defined.

(** ** Sorting, grouping and means *)

Lemma insert_uniq_In (x y : Qc) (l : list Qc) :
  In y (insert_uniq x l) <-> y = x \/ In y l.
Proof.
  induction l as [|z t IH]; simpl.
  - intuition.
  - destruct (x ?= z) eqn:E; simpl.
    + apply Qceq_alt in E. subst. intuition.
    + intuition.
    + rewrite IH. intuition.
Qed.

Lemma sort_uniq_In (y : Qc) (l : list Qc) : In y (sort_uniq l) <-> In y l.
Proof.
  induction l as [|x t IH]; simpl; [tauto|].
  rewrite insert_uniq_In, IH. intuition.
Qed.

Lemma insert_uniq_sorted (x : Qc) (l : list Qc) :
  StronglySorted Qclt l -> StronglySorted Qclt (insert_uniq x l).
Proof.
  induction 1 as [|z t Ht IH Hz]; simpl.
  - repeat constructor.
  - destruct (x ?= z) eqn:E.
    + now constructor.
    + apply Qclt_alt in E. constructor; [now constructor|].
      constructor; auto.
      eapply Forall_impl; [|exact Hz]. intros a Ha. eapply Qclt_trans; eauto.
    + apply Qcgt_alt in E. constructor; auto.
      apply Forall_forall. intros a Ha. apply insert_uniq_In in Ha as [->|Ha]; auto.
      rewrite Forall_forall in Hz. auto.
Qed.

Lemma sort_uniq_sorted (l : list Qc) : StronglySorted Qclt (sort_uniq l).
Proof.
  induction l; simpl; [constructor | now apply insert_uniq_sorted].
Qed.

Lemma Qclt_irrefl (x : Qc) : ~ x < x.
Proof. intro H. now apply (Qcle_not_lt x x (Qcle_refl x)). Qed.

(** A list sorted by a strict order is determined by its elements. *)
Lemma strict_sorted_ext {A} (R : A -> A -> Prop) (l r : list A) :
  (forall x, ~ R x x) -> (forall x y z, R x y -> R y z -> R x z) ->
  StronglySorted R l -> StronglySorted R r ->
  (forall x, In x l <-> In x r) -> l = r.
Proof.
  intros Irr Tr Hl. revert r. induction Hl as [|a l Hl IH Ha]; intros r Hr E.
  - destruct r as [|b r]; auto. exfalso. apply (E b). now left.
  - destruct r as [|b r]; [exfalso; apply (E a); now left|].
    apply StronglySorted_inv in Hr as [Hr Hb].
    rewrite Forall_forall in Ha, Hb.
    assert (a = b).
    { destruct (proj1 (E a) (or_introl eq_refl)) as [Hab|Hab]; [now symmetry|].
      destruct (proj2 (E b) (or_introl eq_refl)) as [Hba|Hba]; [assumption|].
      exfalso. apply (Irr a).
      eapply Tr; [apply Ha, Hba | apply Hb, Hab]. }
    subst b. f_equal. apply IH; auto.
    intro x. split; intro Hx.
    + destruct (proj1 (E x) (or_intror Hx)) as [<-|]; [|assumption].
      exfalso. apply (Irr a). now apply Ha.
    + destruct (proj2 (E x) (or_intror Hx)) as [<-|]; [|assumption].
      exfalso. apply (Irr a). now apply Hb.
Qed.

Lemma strictly_sorted_ext (l r : list Qc) :
  StronglySorted Qclt l -> StronglySorted Qclt r ->
  (forall x, In x l <-> In x r) -> l = r.
Proof.
  apply strict_sorted_ext; [apply Qclt_irrefl | apply Qclt_trans].
Qed.

Lemma sort_uniq_ext (l r : list Qc) :
  (forall x, In x l <-> In x r) -> sort_uniq l = sort_uniq r.
Proof.
  intro E. apply strictly_sorted_ext; auto using sort_uniq_sorted.
  intro x. now rewrite !sort_uniq_In.
Qed.


Lemma numbers_In (x : Qc) (l : list cell) : In x (numbers l) <-> In (Some x) l.
Proof.
  induction l as [|[y|] t IH]; simpl; [tauto | |].
  - rewrite IH. split; intros [H|H]; auto; left; congruence.
  - rewrite IH. split; [auto | intros [H|H]; [discriminate | auto]].
Qed.


Lemma numbers_perm (l r : list cell) :
  Permutation l r -> Permutation (numbers l) (numbers r).
Proof.
  induction 1 as [| [x|] l r H IH | [x|] [y|] l | l m r H1 IH1 H2 IH2]; simpl;
    try reflexivity; try assumption.
  - now apply perm_skip.
  - apply perm_swap.
  - eapply perm_trans; eauto.
Qed.

Lemma filter_perm {A} (f : A -> bool) (l r : list A) :
  Permutation l r -> Permutation (filter f l) (filter f r).
Proof.
  induction 1 as [| x l r H IH | x y l | l m r H1 IH1 H2 IH2]; simpl.
  - constructor.
  - destruct (f x); [now apply perm_skip | assumption].
  - destruct (f x), (f y); try reflexivity. apply perm_swap.
  - eapply perm_trans; eauto.
Qed.

Lemma Qcsum_perm (l r : list Qc) : Permutation l r -> Qcsum l = Qcsum r.
Proof.
  unfold Qcsum.
  induction 1 as [| x l r H IH | x y l | l m r H1 IH1 H2 IH2]; simpl; auto.
  - now rewrite IH.
  - ring.
  - congruence.
Qed.

Lemma nanmean_perm (l r : list cell) : Permutation l r -> nanmean l = nanmean r.
Proof.
  intro H. apply numbers_perm in H. unfold nanmean.
  pose proof (Permutation_length H) as L.
  pose proof (Qcsum_perm _ _ H) as S.
  destruct (numbers l), (numbers r); try discriminate; auto.
  now rewrite S, L.
Qed.

Lemma compress_map {A B} (f : A -> bool) (g : A -> B) (l : list A) :
  compress (map f l) (map g l) = map g (filter f l).
Proof.
  induction l as [|x t IH]; simpl; auto.
  destruct (f x); simpl; now rewrite IH.
Qed.

Lemma map_fst_combine {A B} (l : list A) (r : list B) :
  List.length l = List.length r -> map fst (combine l r) = l.
Proof.
  revert r. induction l; intros [|b r]; simpl; try discriminate; auto.
  intros [= H]. now rewrite IHl.
Qed.

Lemma map_snd_combine {A B} (l : list A) (r : list B) :
  List.length l = List.length r -> map snd (combine l r) = r.
Proof.
  revert r. induction l; intros [|b r]; simpl; try discriminate; auto.
  intros [= H]. now rewrite IHl.
Qed.

(** The values of a group, read off the rows of the two columns. *)
Lemma group_values_rows (keys s : Series) (k : Qc) :
  List.length keys = List.length s ->
  pd.group_values keys k s = group_of (combine keys s) k.
Proof.
  intro L. unfold pd.group_values, group_of.
  rewrite <- (map_fst_combine keys s L) at 1.
  rewrite <- (map_snd_combine keys s L) at 2.
  rewrite map_map. apply compress_map.
Qed.

Lemma group_of_perm (rows rows' : list (cell * cell)) (k : Qc) :
  Permutation rows rows' -> Permutation (group_of rows k) (group_of rows' k).
Proof. intro H. unfold group_of. now apply Permutation_map, filter_perm. Qed.

Lemma group_table_perm (rows rows' : list (cell * cell)) :
  Permutation rows rows' -> group_table rows = group_table rows'.
Proof.
  intro H. unfold group_table.
  assert (E : sort_uniq (numbers (map fst rows)) = sort_uniq (numbers (map fst rows'))).
  { apply sort_uniq_ext. intro x. rewrite !numbers_In.
    split; apply Permutation_in; [|symmetry]; now apply Permutation_map. }
  rewrite E. f_equal. apply map_ext. intro k.
  now apply nanmean_perm, group_of_perm.
Qed.

(** [groupby(...).mean()] of a two-column table, as [group_table] of its rows. *)
Lemma groupby_mean_two (a b : string) (ks vs : Series) :
  a <> b -> List.length ks = List.length vs ->
  pd.groupby_mean [(a, ks); (b, vs)] a
  = Ok [(a, map Some (fst (group_table (combine ks vs))));
        (b, snd (group_table (combine ks vs)))].
Proof.
  intros N L. unfold pd.groupby_mean, pd.getitem. simpl.
  rewrite String.eqb_refl. simpl.
  apply String.eqb_neq in N. rewrite String.eqb_sym in N. rewrite N. simpl.
  unfold group_table. simpl. rewrite (map_fst_combine _ _ L).
  do 4 f_equal. apply map_ext. intro k. now rewrite group_values_rows.
Qed.

(** ** Sorting permutations and indexing *)

Lemma insert_key_perm (p : cell * nat) (l : list (cell * nat)) :
  Permutation (insert_key p l) (p :: l).
Proof.
  induction l as [|x t IH]; simpl; [reflexivity|].
  destruct (cell_leb (fst p) (fst x)); [reflexivity|].
  rewrite IH. apply perm_swap.
Qed.

Lemma insert_key_sorted (p : cell * nat) (l : list (cell * nat)) :
  StronglySorted key_le l -> StronglySorted key_le (insert_key p l).
Proof.
  induction 1 as [|x t Ht IH Hx]; simpl.
  - repeat constructor.
  - destruct (cell_leb (fst p) (fst x)) eqn:E.
    + constructor; [now constructor|]. constructor; [exact E|].
      eapply Forall_impl; [|exact Hx]. intros a Ha.
      unfold key_le in *. eapply cell_leb_trans; eauto.
    + constructor; auto.
      eapply Permutation_Forall; [symmetry; apply insert_key_perm|].
      constructor; auto. unfold key_le.
      destruct (cell_leb_total (fst p) (fst x)); congruence.
Qed.

Lemma isort_keys_perm (l : list (cell * nat)) :
  Permutation (fold_right insert_key [] l) l.
Proof.
  induction l; simpl; [reflexivity|].
  rewrite insert_key_perm. now apply perm_skip.
Qed.

Lemma isort_keys_sorted (l : list (cell * nat)) :
  StronglySorted key_le (fold_right insert_key [] l).
Proof.
  induction l; simpl; [constructor | now apply insert_key_sorted].
Qed.

Lemma combine_seq_nth (a : list cell) (s : nat) (c : cell) (i : nat) :
  In (c, i) (combine a (seq s (List.length a))) ->
  (s <= i)%nat /\ nth_error a (i - s) = Some c.
Proof.
  revert s. induction a as [|x t IH]; simpl; intros s H; [tauto|].
  destruct H as [[= -> ->]|H].
  - rewrite Nat.sub_diag. auto.
  - apply IH in H as [L H]. split; [lia|].
    replace (i - s)%nat with (S (i - S s)) by lia. exact H.
Qed.

(** The stable insertion sort is one of the sorts [np.argsort] may run. *)
Lemma argsort_sorts (a : list cell) : np.sorts a (np.argsort a).
Proof.
  unfold np.sorts, np.argsort.
  set (L := fold_right insert_key [] (combine a (seq 0 (List.length a)))).
  assert (P : Permutation L (combine a (seq 0 (List.length a))))
    by apply isort_keys_perm.
  split.
  - rewrite P. rewrite map_snd_combine; [reflexivity | now rewrite length_seq].
  - assert (E : map (fun i => nth i a None) (map snd L) = map fst L).
    { rewrite map_map. apply map_ext_in. intros [c i] Hin. simpl.
      eapply Permutation_in in Hin; [|exact P].
      apply combine_seq_nth in Hin as [_ Hin]. rewrite Nat.sub_0_r in Hin.
      now apply nth_error_nth. }
    rewrite E. pose proof (isort_keys_sorted (combine a (seq 0 (List.length a)))) as S.
    fold L in S. clear -S. induction S as [|x t Ht IH Hx]; simpl; constructor; auto.
    rewrite Forall_map. exact Hx.
Qed.

Lemma take_ok {A} (d : A) (a : list A) (idx : list nat) :
  (forall i, In i idx -> (i < List.length a)%nat) ->
  np.take a idx = Ok (map (fun i => nth i a d) idx).
Proof.
  unfold np.take. induction idx as [|i t IH]; intro H; simpl; auto.
  destruct (nth_error a i) eqn:E.
  - simpl. rewrite IH by (intros; apply H; now right). simpl.
    now rewrite (nth_error_nth _ _ d E).
  - apply nth_error_None in E. specialize (H i (or_introl eq_refl)). lia.
Qed.

Lemma take_fail {A} (a : list A) (idx : list nat) (i : nat) :
  In i idx -> (List.length a <= i)%nat -> np.take a idx = Raise IndexError.
Proof.
  unfold np.take. intros Hi Hl. induction idx as [|j t IH]; simpl; [destruct Hi|].
  destruct (nth_error a j) eqn:E; auto. simpl.
  destruct Hi as [->|Hi].
  - apply nth_error_None in Hl. congruence.
  - now rewrite IH.
Qed.

Lemma take_seq {A} (a : list A) : np.take a (seq 0 (List.length a)) = Ok a.
Proof.
  unfold np.take.
  assert (G : forall (pre : list A),
             mapM (fun i => match nth_error (pre ++ a) i with
                            | Some x => Ok x | None => Raise IndexError end)
               (seq (List.length pre) (List.length a)) = Ok a).
  { induction a as [|x t IH]; intro pre; simpl; auto.
    rewrite nth_error_app2, Nat.sub_diag by lia. simpl.
    specialize (IH (pre ++ [x])%list).
    rewrite <- app_assoc, length_app in IH. simpl in IH.
    rewrite Nat.add_1_r in IH. now rewrite IH. }
  apply (G []).
Qed.

Lemma map_seq_pairs {A B} (da : A) (db : B) (a : list A) (b : list B) :
  (List.length a <= List.length b)%nat ->
  map (fun i => (nth i a da, nth i b db)) (seq 0 (List.length a)) = combine a b.
Proof.
  revert b. induction a as [|x t IH]; intros [|y b] H; simpl in *; auto; try lia.
  f_equal. rewrite <- seq_shift, map_map. simpl. apply IH. lia.
Qed.

Lemma sorts_indices (a : list cell) (order : list nat) :
  np.sorts a order -> forall i, In i order <-> (i < List.length a)%nat.
Proof.
  intros [P _] i. split; intro H.
  - eapply Permutation_in in H; [|exact P]. apply in_seq in H. lia.
  - eapply Permutation_in; [symmetry; exact P|]. apply in_seq. lia.
Qed.

Lemma combine_map {A B C} (f : A -> B) (g : A -> C) (l : list A) :
  combine (map f l) (map g l) = map (fun i => (f i, g i)) l.
Proof. induction l; simpl; congruence. Qed.

Lemma from_arrays_two (x y : string) (a b : Series) :
  List.length a = List.length b ->
  pd.from_arrays [(x, a); (y, b)] = Ok [(x, a); (y, b)].
Proof.
  intro L. unfold pd.from_arrays. simpl. now rewrite L, Nat.eqb_refl.
Qed.

(** ** Inverting the lookup curve *)

Lemma invert_ok (argsort : list cell -> list nat) (cmd force : list cell) :
  np.sorts cmd (argsort cmd) ->
  (List.length cmd <= List.length force)%nat ->
  ConvertThrustLookup.invert_cmd_vs_force_to_force_vs_cmd argsort cmd force
  = Ok (map Some (fst (group_table (combine cmd force))),
        snd (group_table (combine cmd force))).
Proof.
  intros S L. unfold ConvertThrustLookup.invert_cmd_vs_force_to_force_vs_cmd.
  pose proof (sorts_indices _ _ S) as I.
  rewrite (take_ok None cmd) by (intros i Hi; now apply I).
  rewrite (take_ok None force)
    by (intros i Hi; apply (Nat.lt_le_trans _ (List.length cmd)); [now apply I | exact L]).
  cbn [rbind].
  rewrite from_arrays_two by now rewrite !length_map.
  cbn [rbind].
  rewrite groupby_mean_two; [|discriminate | now rewrite !length_map].
  cbn [rbind]. rewrite combine_map.
  rewrite (group_table_perm _ (combine cmd force)).
  - generalize (group_table (combine cmd force)). intros [gk means]. reflexivity.
  - rewrite <- (@map_seq_pairs cell cell None None cmd force L).
    apply Permutation_map, S.
Qed.

Lemma invert_short (argsort : list cell -> list nat) (cmd force : list cell) :
  np.sorts cmd (argsort cmd) ->
  (List.length force < List.length cmd)%nat ->
  ConvertThrustLookup.invert_cmd_vs_force_to_force_vs_cmd argsort cmd force
  = Raise IndexError.
Proof.
  intros S L. unfold ConvertThrustLookup.invert_cmd_vs_force_to_force_vs_cmd.
  pose proof (sorts_indices _ _ S) as I.
  rewrite (take_ok None cmd) by (intros i Hi; now apply I).
  simpl. rewrite (take_fail force _ (List.length force)); auto.
  now apply I.
Qed.






(** ** Sorting a grouped table *)

Lemma strictly_sorted_nth (gk : list Qc) (d : Qc) :
  StronglySorted Qclt gk ->
  forall i j, (i < j)%nat -> (j < List.length gk)%nat -> nth i gk d < nth j gk d.
Proof.
  induction 1 as [|a l Hl IH Ha]; intros i j Hij Hj; simpl in *; [lia|].
  destruct j as [|j]; [lia|]. destruct i as [|i].
  - rewrite Forall_forall in Ha. apply Ha, nth_In. lia.
  - apply IH; lia.
Qed.

Lemma seq_strictly_sorted (s n : nat) : StronglySorted lt (seq s n).
Proof.
  revert s. induction n; intro s; simpl; constructor; auto.
  apply Forall_forall. intros x Hx. apply in_seq in Hx. lia.
Qed.

Lemma nth_map_Some (gk : list Qc) (i : nat) :
  (i < List.length gk)%nat -> nth i (map Some gk) None = Some (nth i gk 0).
Proof.
  intro H. rewrite (nth_indep _ None (Some 0)) by now rewrite length_map.
  apply map_nth.
Qed.

(** Sorting keys that already increase strictly moves nothing. *)
Lemma sorts_strict_id (gk : list Qc) (order : list nat) :
  StronglySorted Qclt gk -> np.sorts (map Some gk) order ->
  order = seq 0 (List.length gk).
Proof.
  intros Hs [P S]. rewrite length_map in P.
  apply (strict_sorted_ext lt); try apply seq_strictly_sorted.
  - apply Nat.lt_irrefl.
  - apply Nat.lt_trans.
  - assert (B : forall i, In i order -> (i < List.length gk)%nat).
    { intros i Hi. eapply Permutation_in in Hi; [|exact P]. apply in_seq in Hi. lia. }
    assert (ND : NoDup order).
    { eapply Permutation_NoDup; [symmetry; exact P | apply seq_NoDup]. }
    clear P. induction order as [|i t IH]; [constructor|].
    simpl in S. apply StronglySorted_inv in S as [St Si].
    apply NoDup_cons_iff in ND as [Ni ND].
    constructor.
    + apply IH; auto. intros; apply B; now right.
    + rewrite Forall_map in Si. rewrite Forall_forall in *. intros j Hj.
      specialize (Si j Hj). 
      assert (Bi : (i < List.length gk)%nat) by (apply B; now left).
      assert (Bj : (j < List.length gk)%nat) by (apply B; now right).
      rewrite !nth_map_Some in Si by assumption.
      simpl in Si. apply Qcleb_le in Si.
      destruct (Nat.lt_total i j) as [L|[E|L]]; auto.
      * subst. contradiction.
      * exfalso. apply (Qcle_not_lt _ _ Si).
        now apply strictly_sorted_nth.
  - intro x. split; intro H.
    + eapply Permutation_in; eauto.
    + eapply Permutation_in; [symmetry|]; eauto.
Qed.

Lemma take_all_columns (n : nat) (G : DataFrame) :
  Forall (fun p => List.length (snd p) = n) G ->
  mapM (fun p => let? s := np.take (snd p) (seq 0 n) in Ok (fst p, s)) G = Ok G.
Proof.
  induction 1 as [|[c s] t Hs Ht IH]; simpl; auto.
  simpl in Hs. subst n. rewrite take_seq. simpl. now rewrite IH.
Qed.

Lemma sort_values_grouped (argsort : list cell -> list nat) (df G : DataFrame)
    (key : string) :
  (forall a, np.sorts a (argsort a)) ->
  pd.groupby_mean df key = Ok G -> pd.sort_values argsort G key = Ok G.
Proof.
  intros S H. unfold pd.groupby_mean in H.
  destruct (pd.getitem df key) as [keys|e]; simpl in H; [|discriminate].
  injection H as <-.
  set (gk := sort_uniq (numbers keys)).
  unfold pd.sort_values, pd.getitem. simpl. rewrite String.eqb_refl.
  cbn [rbind].
  rewrite (sorts_strict_id gk (argsort (map Some gk)) (sort_uniq_sorted _) (S _)).
  rewrite <- (length_map Some gk) at 1.
  rewrite take_seq. cbn [rbind fst snd].
  rewrite take_all_columns; [reflexivity|].
  apply Forall_forall. intros p Hp. apply in_map_iff in Hp as (p' & <- & _).
  simpl. now rewrite length_map.
Qed.

Lemma sort_values_grouped_kept (argsort : list cell -> list nat) (df G : DataFrame)
    (key : string) (keep : string -> bool) :
  (forall a, np.sorts a (argsort a)) -> keep key = true ->
  pd.groupby_mean df key = Ok G ->
  pd.sort_values argsort (filter (fun p => keep (fst p)) G) key
  = Ok (filter (fun p => keep (fst p)) G).
Proof.
  intros S K H. unfold pd.groupby_mean in H.
  destruct (pd.getitem df key) as [keys|e]; simpl in H; [|discriminate].
  injection H as <-.
  set (gk := sort_uniq (numbers keys)).
  cbn [filter fst]. rewrite K.
  unfold pd.sort_values, pd.getitem. simpl. rewrite String.eqb_refl.
  cbn [rbind].
  rewrite (sorts_strict_id gk (argsort (map Some gk)) (sort_uniq_sorted _) (S _)).
  rewrite <- (length_map Some gk) at 1.
  rewrite take_seq. cbn [rbind fst snd].
  rewrite take_all_columns; [reflexivity|].
  apply Forall_forall. intros p Hp. apply filter_In in Hp as [Hp _].
  apply in_map_iff in Hp as (p' & <- & _).
  simpl. now rewrite length_map.
Qed.

(** The table a mapping block sorts: the grouped table, without the
    thrust column when that is not numeric. *)
Lemma sort_values_mapping (argsort : list cell -> list nat) (numeric : bool)
    (df G : DataFrame) (key thrust : string) :
  (forall a, np.sorts a (argsort a)) ->
  pd.groupby_mean df key = Ok G ->
  pd.sort_values argsort
    (if numeric then G
     else filter (fun p => String.eqb (fst p) key
                           || negb (String.eqb (fst p) thrust)) G) key
  = Ok (if numeric then G
        else filter (fun p => String.eqb (fst p) key
                              || negb (String.eqb (fst p) thrust)) G).
Proof.
  intros S H. destruct numeric.
  - now apply (sort_values_grouped argsort df).
  - apply (sort_values_grouped_kept argsort df G key
             (fun c => String.eqb c key || negb (String.eqb c thrust))); auto.
    now rewrite String.eqb_refl.
Qed.

Lemma thrust_mapping_any_sort (sort1 sort2 : list cell -> list nat)
    (numeric : bool) (df : DataFrame) (key thrust out : string) :
  (forall a, np.sorts a (sort1 a)) -> (forall a, np.sorts a (sort2 a)) ->
  ProcessThrustMap.thrust_mapping sort1 numeric df key thrust out
  = ProcessThrustMap.thrust_mapping sort2 numeric df key thrust out.
Proof.
  intros S1 S2. unfold ProcessThrustMap.thrust_mapping.
  destruct (pd.select df [key; thrust]) as [two|e]; cbn [rbind]; auto.
  destruct (pd.groupby_mean (pd.dropna two) key) as [G|e] eqn:E; cbn [rbind]; auto.
  now rewrite (sort_values_mapping sort1 _ _ _ _ _ S1 E),
    (sort_values_mapping sort2 _ _ _ _ _ S2 E).
Qed.











(** A file with a header and no data row: its columns are not numeric,
    and the mapping is written with the key column alone. *)
Lemma mapping_of_file_without_rows :
  let df := [("throttle", []); ("thrust", [])] in
  ProcessThrustMap.thrust_mapping np.argsort
    (ProcessThrustMap.thrust_is_numeric df)
    [("throttle", []); ("thrust_N", [])] "throttle" "thrust_N" "throttle_pct"
  = Ok [("throttle_pct", [])].
Proof. reflexivity. Qed.
(** ** Outputs do not depend on how ties are sorted *)

Lemma argsort_reversed_ties_sorts (a : list cell) :
  np.sorts a (np.argsort_reversed_ties a).
Proof.
  unfold np.sorts, np.argsort_reversed_ties.
  set (L := fold_right insert_key [] (rev (combine a (seq 0 (List.length a))))).
  assert (P : Permutation L (combine a (seq 0 (List.length a)))).
  { unfold L. rewrite isort_keys_perm. symmetry. apply Permutation_rev. }
  split.
  - rewrite P. rewrite map_snd_combine; [reflexivity | now rewrite length_seq].
  - assert (E : map (fun i => nth i a None) (map snd L) = map fst L).
    { rewrite map_map. apply map_ext_in. intros [c i] Hin. simpl.
      eapply Permutation_in in Hin; [|exact P].
      apply combine_seq_nth in Hin as [_ Hin]. rewrite Nat.sub_0_r in Hin.
      now apply nth_error_nth. }
    rewrite E.
    pose proof (isort_keys_sorted (rev (combine a (seq 0 (List.length a))))) as S.
    fold L in S. clear -S. induction S as [|x t Ht IH Hx]; simpl; constructor; auto.
    rewrite Forall_map. exact Hx.
Qed.

Lemma invert_any_sort (sort1 sort2 : list cell -> list nat) (cmd force : list cell) :
  (forall a, np.sorts a (sort1 a)) -> (forall a, np.sorts a (sort2 a)) ->
  ConvertThrustLookup.invert_cmd_vs_force_to_force_vs_cmd sort1 cmd force
  = ConvertThrustLookup.invert_cmd_vs_force_to_force_vs_cmd sort2 cmd force.
Proof.
  intros S1 S2.
  destruct (Nat.le_gt_cases (List.length cmd) (List.length force)) as [L|L].
  - now rewrite !invert_ok.
  - now rewrite !invert_short.
Qed.

(** C7.  For each of the three scripts the written tables are a function
    of the input data and the arguments: whatever order the library's
    unstable sort leaves among equal keys, a run writes the same files
    with the same header names, the same column order and the same rows
    in the same order, and ends in the same way. *)
Theorem outputs_are_deterministic (sort1 sort2 : list cell -> list nat)
    (i : invocation) :
  (forall a, np.sorts a (sort1 a)) -> (forall a, np.sorts a (sort2 a)) ->
  execute sort1 i = execute sort2 i.
Proof.
  intros S1 S2. destruct i as [root csv args | ints csv args | root grid args]; simpl.
  - unfold run, ProcessThrustMap.main, io_bind, io_lift.
    destruct (ProcessThrustMap.ensure_thrust_newton csv) as [[df thrust_col]|e]; auto.
    destruct (ProcessThrustMap.add_power_if_possible df) as [df'|e]; auto.
    destruct (ProcessThrustMap.pick_column df' _) as [throttle_col|],
      (ProcessThrustMap.pick_column df' _) as [rpm_col|],
      thrust_col as [thrust_col|];
      rewrite ?(thrust_mapping_any_sort sort1 sort2) by assumption;
      reflexivity.
  - reflexivity.
  - unfold run, ConvertThrustLookup.main, io_bind, io_lift.
    destruct (ConvertThrustLookup.read_lookup grid) as [[[[v f] Z] m]|e]; auto.
    destruct (ConvertThrustLookup.melt_grid v f Z) as [long|e]; auto.
    cbn [to_csv].
    destruct (ConvertThrustLookup.slice_voltage_curve v f Z _)
      as [[[v_sel f_vec] cmd_vec]|e]; auto.
    now rewrite (invert_any_sort sort1 sort2).
Qed.

Lemma outputs_are_deterministic_witness :
  execute np.argsort
    (RunLookup "/repo"
       [[q 2; q 0; q 10; q 3; q 4]; [q 6; q 6; q 0; q 0; q 0]; [q 5; q 5; q 0; q 0; q 0]]
       {| ConvertThrustLookup.input := "thrust_map.csv";
          ConvertThrustLookup.name := "a";
          ConvertThrustLookup.outdir := None;
          ConvertThrustLookup.voltage := None;
          ConvertThrustLookup.min_cmd := None;
          ConvertThrustLookup.max_cmd := None |})
  = execute np.argsort_reversed_ties
      (RunLookup "/repo"
         [[q 2; q 0; q 10; q 3; q 4]; [q 6; q 6; q 0; q 0; q 0]; [q 5; q 5; q 0; q 0; q 0]]
         {| ConvertThrustLookup.input := "thrust_map.csv";
            ConvertThrustLookup.name := "a";
            ConvertThrustLookup.outdir := None;
            ConvertThrustLookup.voltage := None;
            ConvertThrustLookup.min_cmd := None;
            ConvertThrustLookup.max_cmd := None |}).
Proof.
  apply outputs_are_deterministic.
  - exact argsort_sorts.
  - exact argsort_reversed_ties_sorts.
Defined.

(** ** Throttle normalisation *)

Lemma reduce_numbers (pick : Qc -> Qc -> Qc) (x : Qc) (t : list Qc) :
  np.reduce pick (map Some (x :: t)) = Ok (Some (fold_left pick t x)).
Proof.
  unfold np.reduce. simpl. f_equal. revert x.
  induction t as [|y t IH]; intro x; simpl; auto.
Qed.





Lemma Qclt_neq (s : Qc) : 0 < s -> s <> 0.
Proof. intros H E. rewrite E in H. now apply (Qclt_irrefl 0). Qed.







(** C9 as stated fails for an input the arguments admit: [--min-cmd nan]
    is accepted by [type=float], and [max(nan, 1e-9)] is nan, so the
    span is not a number at least 1e-9 and no [throttle_pct] is defined. *)
Lemma nan_min_cmd_has_no_span :
  exists span pct,
    ConvertThrustLookup.normalize_throttle [q 5; q 7] (Some None) None
    = Ok (span, pct) /\
    ~ (exists s, span = Some s /\ ConvertThrustLookup.eps <= s) /\
    Forall (fun p => p = None) pct.
Proof.
  eexists _, _. split; [reflexivity|]. split.
  - intros (s & E & _). discriminate.
  - repeat constructor.
Qed.
(** ** Aggregation in process_efficiency *)





Lemma get_mapped (f : string -> Series) (cs : list string) (c : string) :
  In c cs -> pd.get (map (fun c => (c, f c)) cs) c = Some (f c).
Proof.
  induction cs as [|d t IH]; simpl; [tauto|].
  destruct (String.eqb c d) eqn:E.
  - apply String.eqb_eq in E. now subst.
  - intros [->|H]; auto. now rewrite String.eqb_refl in E.
Qed.


Lemma agg_columns_not_energy (df : DataFrame) (c : string) :
  In c (ProcessEfficiency.agg_columns df) -> c <> "energy_Wh_per_km".
Proof.
  unfold ProcessEfficiency.agg_columns.
  destruct (pd.has_column df "power_W"), (pd.has_column df "thrust_sum_N"); simpl;
    intuition (subst; discriminate).
Qed.
(** ** Arithmetic on exact numbers *)

Ltac qc_linear :=
  unfold Qcle, Qclt, Qcminus, Qcplus, Qcopp in *; cbn [this Q2Qc] in *;
  rewrite ?Qred_correct in *; lra.

Lemma Qcminus_pos (lo hi : Qc) : lo < hi -> 0 < hi - lo.
Proof. intros. qc_linear. Qed.

Lemma Qcplus_lt_compat_l (x y z : Qc) : y < z -> x + y < x + z.
Proof. intros. qc_linear. Qed.

Lemma Z2Qc_lt (i j : Z) : (i < j)%Z -> Z2Qc i < Z2Qc j.
Proof.
  intros. unfold Z2Qc, Qclt. cbn [this Q2Qc]. rewrite !Qred_correct.
  now rewrite <- Zlt_Qlt.
Qed.

Lemma Qcinv_pos (x : Qc) : 0 < x -> 0 < / x.
Proof.
  intros H. destruct (Qclt_le_dec 0 (/ x)) as [|L]; auto. exfalso.
  pose proof (Qclt_neq x H) as N.
  apply (Qcmult_le_compat_r _ _ x) in L; [|now apply Qclt_le_weak].
  rewrite Qcmult_inv_l in L by assumption. replace (0 * x) with 0 in L by ring.
  revert L. apply Qclt_not_le. reflexivity.
Qed.

(** ** The speed bins *)

Section Bins.

Variables lo hi : Qc.
Variable nbins : Z.
Hypothesis lo_lt_hi : lo < hi.
Hypothesis nbins_pos : (1 <= nbins)%Z.

Local Abbreviation e := (edge lo hi nbins).
Local Abbreviation es := (edges lo hi nbins).

Lemma nbins_Qc_pos : 0 < Z2Qc nbins.
Proof. apply (Z2Qc_lt 0). lia. Qed.

Lemma edge_first : e 0%nat = lo.
Proof. unfold edge. simpl. unfold Qcdiv. change (Z2Qc 0) with 0. ring. Qed.

Lemma edge_last : e (Z.to_nat nbins) = hi.
Proof.
  unfold edge. rewrite Z2Nat.id by lia.
  pose proof (Qclt_neq _ nbins_Qc_pos). field. assumption.
Qed.

Lemma edge_lt (i j : nat) : (i < j)%nat -> e i < e j.
Proof.
  intro H. unfold edge. apply Qcplus_lt_compat_l.
  rewrite !(Qcmult_comm (hi - lo)).
  apply Qcmult_lt_compat_r; [now apply Qcminus_pos|].
  unfold Qcdiv. apply Qcmult_lt_compat_r.
  - apply Qcinv_pos, nbins_Qc_pos.
  - apply Z2Qc_lt. lia.
Qed.

Lemma edge_le (i j : nat) : (i <= j)%nat -> e i <= e j.
Proof.
  intro H. destruct (Nat.eq_dec i j) as [->|N]; [apply Qcle_refl|].
  apply Qclt_le_weak, edge_lt. lia.
Qed.


Lemma linspace_edges :
  np.linspace (Some lo) (Some hi) (nbins + 1) = Ok (map Some es).
Proof.
  unfold np.linspace.
  assert ((nbins + 1 <? 0)%Z = false) as -> by (apply Z.ltb_ge; lia).
  replace (nbins + 1 - 1)%Z with nbins by lia.
  assert ((0 <? nbins)%Z = true) as -> by (apply Z.ltb_lt; lia).
  replace (Z.to_nat (nbins + 1)) with (S (Z.to_nat nbins)) by lia.
  unfold edges. rewrite map_map. f_equal. apply map_ext_in.
  intros i Hi. apply in_seq in Hi. cbn [andb].
  destruct (Z.of_nat i =? nbins)%Z eqn:E.
  - apply Z.eqb_eq in E. f_equal.
    replace i with (Z.to_nat nbins) by lia. symmetry. apply edge_last.
  - reflexivity.
Qed.

Lemma edges_sorted_from (s n : nat) : StronglySorted Qclt (map e (seq s n)).
Proof.
  revert s. induction n; intro s; simpl; constructor; auto.
  apply Forall_forall. intros x Hx. apply in_map_iff in Hx as (j & <- & Hj).
  apply in_seq in Hj. apply edge_lt. lia.
Qed.


End Bins.

(** ** Bins between any strictly increasing edges *)














(** ** Percentiles *)

Lemma insert_sorted_perm (x : Qc) (l : list Qc) :
  Permutation (insert_sorted x l) (x :: l).
Proof.
  induction l as [|y t IH]; simpl; auto.
  destruct (Qcleb x y); auto.
  rewrite IH. apply perm_swap.
Qed.

Lemma sort_numbers_perm (l : list Qc) : Permutation (sort_numbers l) l.
Proof.
  induction l as [|x t IH]; simpl; auto.
  rewrite insert_sorted_perm. now constructor.
Qed.

Lemma insert_sorted_sorted (x : Qc) (l : list Qc) :
  StronglySorted Qcle l -> StronglySorted Qcle (insert_sorted x l).
Proof.
  induction 1 as [|y t Ht IH Hy]; simpl.
  - repeat constructor.
  - destruct (Qcleb x y) eqn:E.
    + apply Qcleb_le in E. constructor; [now constructor|].
      constructor; auto. eapply Forall_impl; [|exact Hy].
      intros z Hz. eapply Qcle_trans; eauto.
    + apply Qcleb_gt in E. constructor; auto.
      apply Forall_forall. intros z Hz.
      apply (Permutation_in _ (insert_sorted_perm x t)) in Hz.
      destruct Hz as [<-|Hz]; [now apply Qclt_le_weak|].
      rewrite Forall_forall in Hy. now apply Hy.
Qed.

Lemma sort_numbers_sorted (l : list Qc) : StronglySorted Qcle (sort_numbers l).
Proof.
  induction l as [|x t IH]; simpl; [constructor|].
  now apply insert_sorted_sorted.
Qed.



Lemma percentile_exists (s : Series) (q : Qc) :
  numbers s <> [] -> exists p, percentile s q p.
Proof.
  intro N. exists (interpolate (sort_numbers (numbers s)) q).
  exists (sort_numbers (numbers s)). split; [apply sort_numbers_perm|].
  split; [apply sort_numbers_sorted|]. split; [|reflexivity].
  intro E. apply N. apply Permutation_nil. rewrite <- E.
  apply sort_numbers_perm.
Qed.
(** ** Edges computed with rounding *)







(** ** The table process_efficiency writes *)

Lemma derive_power_total (ints : list string) (df : DataFrame) :
  exists df', ProcessEfficiency.derive_power ints df = Ok df'.
Proof.
  unfold ProcessEfficiency.derive_power.
  destruct (pd.has_column df "voltage_V") eqn:V; [|simpl; eauto].
  destruct (pd.has_column df "current_A") eqn:C; [|simpl; eauto].
  apply get_Some_has in V as [v Hv]. apply get_Some_has in C as [c Hc].
  rewrite (getitem_get _ _ _ Hv), (getitem_get _ _ _ Hc). cbn [rbind andb].
  eexists. reflexivity.
Qed.

Lemma cell_eq_by_value (c : cell) (x : Qc) :
  option_map this c = Some (this x) -> c = Some x.
Proof.
  destruct c as [y|]; simpl; [|discriminate].
  intros [= H]. f_equal. apply Qc_is_canon. now rewrite H.
Qed.






(** C5 as stated fails: not every input row is assigned to a bin.  With
    speeds 1 to 5 the 5th percentile is 1.2, and the row of speed 1,
    below the lowest edge, gets no bin code. *)
Lemma speed_below_percentile_has_no_bin :
  let speed := [q 1; q 2; q 3; q 4; q 5] in
  exists lo hi es codes,
    pd.quantile speed (Q2Qc (5 # 100)) = Some lo /\
    pd.quantile speed (Q2Qc (95 # 100)) = Some hi /\
    np.linspace (Some lo) (Some hi) (2 + 1) = Ok es /\
    pd.cut speed es = Ok (codes, 2%nat) /\
    nth_error speed 0 = Some (q 1) /\ nth_error codes 0 = Some None.
Proof.
  intro speed. eexists _, _, _, _.
  split; [reflexivity|]. split; [reflexivity|]. split; [reflexivity|].
  split; [vm_compute; reflexivity|]. split; reflexivity.
Qed.
(** ** Errors and outputs of the runs *)

Lemma lacks_required_spec (df : DataFrame) :
  ProcessEfficiency.lacks_required df = true <-> lacks_needed_columns df.
Proof.
  unfold ProcessEfficiency.lacks_required, lacks_needed_columns.
  rewrite orb_true_iff, andb_true_iff, !negb_true_iff.
  rewrite <- !has_column_In.
  destruct (pd.has_column df "speed_mps"), (pd.has_column df "power_W"),
    (pd.has_column df "thrust_sum_N"); intuition congruence.
Qed.

Lemma mapM_raise {A B} (f : A -> result B) (l : list A) (e : exn) :
  mapM f l = Raise e -> exists x, In x l /\ f x = Raise e.
Proof.
  induction l as [|x t IH]; simpl; [discriminate|].
  destruct (f x) as [y|e'] eqn:E; simpl.
  - destruct (mapM f t) as [r|e'']; simpl; [discriminate|].
    intros [= <-]. destruct (IH eq_refl) as (z & Hz & Ez). eauto.
  - intros [= <-]. eauto.
Qed.

Lemma getitem_raise (df : DataFrame) (c : string) (e : exn) :
  pd.getitem df c = Raise e -> not_column_check e.
Proof.
  unfold pd.getitem. destruct (pd.get df c); [discriminate|].
  intros [= <-]. discriminate.
Qed.

(** Binning and averaging never raise the error of the column check. *)
Lemma aggregate_raise (df : DataFrame) (nbins : Z) (e : exn) :
  ProcessEfficiency.aggregate df nbins = Raise e -> not_column_check e.
Proof.
  unfold ProcessEfficiency.aggregate, ProcessEfficiency.bin_and_average.
  destruct (pd.getitem df "speed_mps") as [speed|e0] eqn:G; cbn [rbind];
    [|intros [= <-]; eapply getitem_raise; eauto].
  destruct (np.linspace _ _ _) as [edges|e0] eqn:L; cbn [rbind].
  2:{ intros [= <-]. unfold np.linspace in L.
      destruct (_ <? _)%Z; [|discriminate]. injection L as <-. discriminate. }
  destruct (pd.cut speed edges) as [[codes ncat]|e0] eqn:C; cbn [rbind].
  2:{ intros [= <-]. unfold pd.cut in C.
      destruct (negb _); [injection C as <-; discriminate|].
      destruct (_ && _); [injection C as <-; discriminate|].
      destruct (numbers edges); [injection C as <-|]; discriminate. }
  destruct (pd.groupby_codes_mean _ _ _ _) as [g|e0] eqn:M; cbn [rbind].
  2:{ intros [= <-]. unfold pd.groupby_codes_mean in M.
      apply mapM_raise in M as (c & _ & M).
      destruct (pd.getitem df c) eqn:G'; cbn [rbind] in M; [discriminate|].
      injection M as <-. eapply getitem_raise; eauto. }
  destruct (pd.has_column (pd.dropna g) "power_W"); [|discriminate].
  destruct (pd.getitem (pd.dropna g) "power_W") eqn:G1; cbn [rbind];
    [|intros [= <-]; eapply getitem_raise; eauto].
  destruct (pd.getitem (pd.dropna g) "speed_mps") eqn:G2; cbn [rbind];
    [discriminate|intros [= <-]; eapply getitem_raise; eauto].
Qed.

(** C10, as the code has it.  After the power derivation,
    process_efficiency raises the [ValueError] of its column check if
    and only if the table lacks [speed_mps] or lacks both [power_W] and
    [thrust_sum_N]; a [power_W] derived from [voltage_V] and [current_A]
    meets the requirement; and whenever the run raises, whatever the
    error, no output CSV has been written. *)
Theorem efficiency_column_check (ints : list string) (df df' : DataFrame)
    (args : ProcessEfficiency.Args) :
  ProcessEfficiency.derive_power ints df = Ok df' ->
  (snd (run (ProcessEfficiency.main ints df args)) = Raise (ValueError MissingInputColumns)
   <-> lacks_needed_columns df') /\
  (In "voltage_V" (pd.columns df) -> In "current_A" (pd.columns df) ->
   In "power_W" (pd.columns df')) /\
  (forall e, snd (run (ProcessEfficiency.main ints df args)) = Raise e ->
             fst (run (ProcessEfficiency.main ints df args)) = []).
Proof.
  intro Hd.
  assert (R : run (ProcessEfficiency.main ints df args)
              = if ProcessEfficiency.lacks_required df'
                then ([], Raise (ValueError MissingInputColumns))
                else match ProcessEfficiency.aggregate df' (ProcessEfficiency.bins args) with
                     | Ok g => ([(efficiency_path args, g)], Ok tt)
                     | Raise e => ([], Raise e)
                     end).
  { unfold run, ProcessEfficiency.main, io_bind, io_lift, io_raise, to_csv.
    rewrite Hd. destruct (ProcessEfficiency.lacks_required df'); reflexivity. }
  rewrite R. split; [split|split].
  - destruct (ProcessEfficiency.lacks_required df') eqn:L.
    + intros _. now apply lacks_required_spec.
    + destruct (ProcessEfficiency.aggregate df' _) eqn:A; simpl; [discriminate|].
      intros [= ->]. apply aggregate_raise in A. now elim A.
  - intro H. apply lacks_required_spec in H. now rewrite H.
  - intros Hv Hc. apply has_column_In in Hv, Hc.
    unfold ProcessEfficiency.derive_power in Hd. rewrite Hv, Hc in Hd.
    cbn [andb] in Hd.
    destruct (pd.getitem df "voltage_V"); cbn [rbind] in Hd; [|discriminate].
    destruct (pd.getitem df "current_A"); cbn [rbind] in Hd; [|discriminate].
    injection Hd as <-. apply has_column_In, get_Some_has.
    eexists. apply get_setitem_same.
  - intros e. destruct (ProcessEfficiency.lacks_required df'); auto.
    destruct (ProcessEfficiency.aggregate df' _); simpl; [discriminate | auto].
Qed.

Lemma efficiency_column_check_witness :
  let df := [("speed_mps", [q 1; q 2]); ("voltage_V", [q 10; q 10]);
             ("current_A", [q 1; q 2])] in
  let args := {| ProcessEfficiency.input := "log.csv";
                 ProcessEfficiency.name := "x";
                 ProcessEfficiency.outdir := "data";
                 ProcessEfficiency.bins := 12 |} in
  let df' := pd.setitem df "power_W" [cell_mul (q 10) (q 1); cell_mul (q 10) (q 2)] in
  (snd (run (ProcessEfficiency.main [] df args)) = Raise (ValueError MissingInputColumns)
   <-> lacks_needed_columns df') /\
  (In "voltage_V" (pd.columns df) -> In "current_A" (pd.columns df) ->
   In "power_W" (pd.columns df')) /\
  (forall e, snd (run (ProcessEfficiency.main [] df args)) = Raise e ->
             fst (run (ProcessEfficiency.main [] df args)) = []).
Proof.
  intros df args df'.
  apply (efficiency_column_check [] df df' args).
  reflexivity.
Defined.

(** C10 as stated fails in its "only if": with [speed_mps] and [power_W]
    both present, equal speeds make all bin edges equal and [pd.cut]
    raises a [ValueError]. *)
Lemma efficiency_raises_with_columns_present :
  let df := [("speed_mps", [q 5; q 5]); ("power_W", [q 10; q 12])] in
  let args := {| ProcessEfficiency.input := "log.csv";
                 ProcessEfficiency.name := "x";
                 ProcessEfficiency.outdir := "data";
                 ProcessEfficiency.bins := 12 |} in
  ProcessEfficiency.derive_power [] df = Ok df /\
  ~ ((exists why, snd (run (ProcessEfficiency.main [] df args)) = Raise (ValueError why))
     <-> lacks_needed_columns df).
Proof.
  intros df args. split; [reflexivity|].
  intros [H _].
  assert (L : lacks_needed_columns df).
  { apply H. exists BinEdgesNotUnique. vm_compute. reflexivity. }
  destruct L as [L|[L _]]; apply L; simpl; auto.
Qed.

(** ** Every run that ends normally has written a file *)

Lemma app_not_nil {A} (w : list A) (x : A) : (w ++ [x])%list <> [].
Proof. destruct w; discriminate. Qed.

Lemma thrust_map_ok_writes (argsort : list cell -> list nat) (root : string)
    (df : DataFrame) (args : ProcessThrustMap.Args) (w : list csv_file) :
  run (ProcessThrustMap.main argsort root df args) = (w, Ok tt) -> w <> [].
Proof.
  unfold run, ProcessThrustMap.main, io_bind, io_lift, io_ret, io_raise, to_csv.
  destruct (ProcessThrustMap.ensure_thrust_newton df) as [[df1 thrust_col]|e];
    [|discriminate].
  destruct (ProcessThrustMap.add_power_if_possible df1) as [df2|e]; [|discriminate].
  set (keep := ProcessThrustMap.drop_none _).
  destruct (ProcessThrustMap.pick_column df2 _) as [throttle_col|],
    (ProcessThrustMap.pick_column df2 _) as [rpm_col|],
    thrust_col as [thrust_col|];
    repeat match goal with
      | |- context [ProcessThrustMap.thrust_mapping ?x1 ?x0 ?x2 ?x3 ?x4 ?x5] =>
          destruct (ProcessThrustMap.thrust_mapping x1 x0 x2 x3 x4 x5); [|discriminate]
      end;
    destruct keep; try destruct (pd.select df2 _);
    cbn; try discriminate; intros [= <-]; discriminate.
Qed.

(** C6, as the code has it.  Every run of each of the three scripts
    that ends without an error has written one or more output CSVs. *)
Theorem completed_runs_write_output (argsort : list cell -> list nat)
    (i : invocation) (w : list csv_file) :
  execute argsort i = (w, Ok tt) -> w <> [].
Proof.
  destruct i as [root csv args | ints csv args | root grid args]; simpl.
  - apply thrust_map_ok_writes.
  - unfold run, ProcessEfficiency.main, io_bind, io_lift, io_raise, to_csv.
    destruct (ProcessEfficiency.derive_power ints csv); [|discriminate].
    destruct (ProcessEfficiency.lacks_required _); [discriminate|].
    destruct (ProcessEfficiency.aggregate _ _); [|discriminate].
    intros [= <-]. discriminate.
  - unfold run, ConvertThrustLookup.main, io_bind, io_lift, to_csv.
    destruct (ConvertThrustLookup.read_lookup grid) as [[[[v f] Z] m]|e]; [|discriminate].
    destruct (ConvertThrustLookup.melt_grid v f Z); [|discriminate].
    destruct (ConvertThrustLookup.slice_voltage_curve _ _ _ _) as [[[vs fs] cs]|e];
      [|discriminate].
    destruct (ConvertThrustLookup.invert_cmd_vs_force_to_force_vs_cmd _ _ _)
      as [[c1 t1]|e]; [|discriminate].
    destruct (ConvertThrustLookup.normalize_throttle _ _ _) as [[s p]|e]; [|discriminate].
    destruct (pd.from_arrays _); [|discriminate].
    intros [= <-]. discriminate.
Qed.

Lemma completed_runs_write_output_witness :
  fst (execute np.argsort
         (RunThrustMap "/repo"
            [("throttle", [q 10; q 20]); ("thrust_g", [q 500; q 900])]
            {| ProcessThrustMap.input := "log.csv";
               ProcessThrustMap.name := "m";
               ProcessThrustMap.outdir := None |})) <> [].
Proof.
  apply (completed_runs_write_output np.argsort
           (RunThrustMap "/repo"
              [("throttle", [q 10; q 20]); ("thrust_g", [q 500; q 900])]
              {| ProcessThrustMap.input := "log.csv";
                 ProcessThrustMap.name := "m";
                 ProcessThrustMap.outdir := None |})).
  rewrite surjective_pairing at 1. apply f_equal. vm_compute. reflexivity.
Defined.

(** C6 as stated fails: a readable CSV with no expected column makes
    process_thrust_map exit with status 1 and nothing written. *)
Lemma thrust_map_without_known_columns_writes_nothing :
  execute np.argsort
    (RunThrustMap "/repo" [("foo", [q 1; q 2])]
       {| ProcessThrustMap.input := "log.csv";
          ProcessThrustMap.name := "m";
          ProcessThrustMap.outdir := None |})
  = ([], Raise (SystemExit 1)).
Proof. vm_compute. reflexivity. Qed.

(** * Further properties of the scripts *)

(** ** process_thrust_map: the run as a whole *)

Lemma pick_column_has (df : DataFrame) (aliases : list string) (a : string) :
  ProcessThrustMap.pick_column df aliases = Some a ->
  In a aliases /\ pd.has_column df a = true.
Proof.
  intro H. pose proof (pick_column_first df aliases) as F. rewrite H in F.
  apply first_present_Some in F as [I C]. split; auto. now apply has_column_In.
Qed.

Lemma pick_column_none (df : DataFrame) (aliases : list string) :
  ProcessThrustMap.pick_column df aliases = None <->
  forall a, In a aliases -> ~ In a (pd.columns df).
Proof.
  rewrite <- first_present_None. split; intro H.
  - rewrite <- H. apply pick_column_first.
  - now apply first_present_pick.
Qed.

Lemma columns_filter_rows (mask : list bool) (df : DataFrame) :
  pd.columns (pd.filter_rows mask df) = pd.columns df.
Proof.
  unfold pd.columns, pd.filter_rows. rewrite map_map. now apply map_ext.
Qed.

Lemma columns_setitem_incl (df : DataFrame) (c d : string) (s : Series) :
  pd.has_column df d = true -> pd.has_column (pd.setitem df c s) d = true.
Proof.
  intro H. apply get_Some_has in H as [x Hx].
  destruct (String.eqb d c) eqn:E.
  - apply String.eqb_eq in E. subst. apply get_Some_has. eexists.
    apply get_setitem_same.
  - apply String.eqb_neq in E. apply get_Some_has. exists x.
    now rewrite get_setitem_other.
Qed.

Lemma select_projection (df : DataFrame) (cs : list string) :
  (forall c, In c cs -> pd.has_column df c = true) ->
  pd.select df cs = Ok (projection df cs).
Proof.
  unfold pd.select, projection. induction cs as [|c t IH]; intro H; simpl; auto.
  destruct (proj1 (get_Some_has df c) (H c (or_introl eq_refl))) as [s Hs].
  rewrite (getitem_get _ _ _ Hs). cbn [rbind].
  rewrite IH by (intros; apply H; now right). cbn [rbind].
  unfold column. now rewrite Hs.
Qed.

(** A mapping block never raises when its two columns are in the table. *)
Lemma thrust_mapping_total (argsort : list cell -> list nat) (numeric : bool)
    (df : DataFrame) (key thrust out : string) :
  (forall a, np.sorts a (argsort a)) ->
  pd.has_column df key = true -> pd.has_column df thrust = true ->
  exists T, ProcessThrustMap.thrust_mapping argsort numeric df key thrust out = Ok T.
Proof.
  intros S Hk Ht. unfold ProcessThrustMap.thrust_mapping.
  rewrite select_projection
    by (intros c [<-|[<-|[]]]; assumption).
  cbn [rbind].
  destruct (pd.groupby_mean (pd.dropna (projection df [key; thrust])) key)
    as [G|e] eqn:E.
  - cbn [rbind]. rewrite (sort_values_mapping argsort _ _ _ _ _ S E).
    cbn [rbind]. eauto.
  - exfalso. unfold pd.groupby_mean in E.
    assert (H : pd.has_column (pd.dropna (projection df [key; thrust])) key = true).
    { apply has_column_In. unfold pd.dropna. rewrite columns_filter_rows.
      simpl. auto. }
    apply get_Some_has in H as [s Hs]. rewrite (getitem_get _ _ _ Hs) in E.
    discriminate.
Qed.

Lemma has_column_retitled (df : DataFrame) (c new d : string) :
  pd.has_column df d = true -> (d = c -> d = new) ->
  pd.has_column (retitled df c new) d = true.
Proof.
  intros Hd N. apply has_column_In. apply has_column_In in Hd.
  unfold retitled, pd.columns. rewrite map_map. simpl.
  apply in_map_iff in Hd as (p & <- & Hp). apply in_map_iff.
  exists p. split; auto.
  destruct (String.eqb (fst p) c) eqn:E; auto.
  apply String.eqb_eq in E. symmetry. now apply N.
Qed.

Lemma has_column_retitled_new (df : DataFrame) (c new : string) :
  pd.has_column df c = true -> pd.has_column (retitled df c new) new = true.
Proof.
  intros Hc. apply has_column_In. apply has_column_In in Hc.
  unfold retitled, pd.columns. rewrite map_map. simpl.
  apply in_map_iff in Hc as (p & <- & Hp). apply in_map_iff.
  exists p. split; auto. now rewrite String.eqb_refl.
Qed.

(** What [ensure_thrust_newton] returns, whatever the table: it never
    raises; it reports [thrust_N], then a header of the result, exactly
    when the input has one of the seven thrust headers. *)
Lemma ensure_thrust_newton_shape (df : DataFrame) :
  exists df1 tc,
    ProcessThrustMap.ensure_thrust_newton df = Ok (df1, tc) /\
    (forall c, pd.has_column df c = true -> c <> "thrust" -> c <> "force_N" ->
               pd.has_column df1 c = true) /\
    ((tc = Some "thrust_N" /\ pd.has_column df1 "thrust_N" = true /\
      exists a, In a thrust_aliases /\ In a (pd.columns df)) \/
     (tc = None /\ df1 = df /\
      forall a, In a thrust_aliases -> ~ In a (pd.columns df))).
Proof.
  unfold ProcessThrustMap.ensure_thrust_newton, thrust_aliases.
  fold newton_aliases gram_aliases kgf_aliases.
  destruct (ProcessThrustMap.pick_column df newton_aliases) as [c|] eqn:P1.
  - apply pick_column_has in P1 as [I C].
    assert (E : (if negb (String.eqb c "thrust_N")
                 then pd.rename df [(c, "thrust_N")] else df)
                = retitled df c "thrust_N").
    { destruct (String.eqb c "thrust_N") eqn:E; simpl; [|reflexivity].
      apply String.eqb_eq in E. subst. now rewrite retitled_same. }
    rewrite E. eexists _, _. split; [reflexivity|]. split.
    + intros d Hd N1 N2. apply has_column_retitled; auto.
      intros ->. simpl in I. destruct I as [<-|[<-|[<-|[]]]]; congruence.
    + left. split; auto. split; [now apply has_column_retitled_new|].
      exists c. split; [apply in_or_app; now left | now apply has_column_In].
  - destruct (ProcessThrustMap.pick_column df gram_aliases) as [c|] eqn:P2.
    + apply pick_column_has in P2 as [I C].
      destruct (proj1 (get_Some_has df c) C) as [g Hg].
      rewrite (getitem_get _ _ _ Hg). cbn [rbind].
      eexists _, _. split; [reflexivity|]. split.
      * intros d Hd _ _. now apply columns_setitem_incl.
      * left. split; auto. split.
        { apply get_Some_has. eexists. apply get_setitem_same. }
        exists c. split; [|now apply has_column_In].
        apply in_or_app. right. apply in_or_app. now left.
    + destruct (ProcessThrustMap.pick_column df kgf_aliases) as [c|] eqn:P3.
      * apply pick_column_has in P3 as [I C].
        destruct (proj1 (get_Some_has df c) C) as [g Hg].
        rewrite (getitem_get _ _ _ Hg). cbn [rbind].
        eexists _, _. split; [reflexivity|]. split.
        { intros d Hd _ _. now apply columns_setitem_incl. }
        left. split; auto. split.
        { apply get_Some_has. eexists. apply get_setitem_same. }
        exists c. split; [|now apply has_column_In].
        apply in_or_app. right. apply in_or_app. now right.
      * eexists _, _. split; [reflexivity|]. split; auto.
        right. split; auto. split; auto.
        intros a Ha. apply in_app_or in Ha as [Ha|Ha];
          [|apply in_app_or in Ha as [Ha|Ha]].
        { now apply (proj1 (pick_column_none df newton_aliases) P1). }
        { now apply (proj1 (pick_column_none df gram_aliases) P2). }
        { now apply (proj1 (pick_column_none df kgf_aliases) P3). }
Qed.

Lemma add_power_shape (df : DataFrame) :
  exists df2,
    ProcessThrustMap.add_power_if_possible df = Ok df2 /\
    (forall c, pd.has_column df c = true -> pd.has_column df2 c = true) /\
    ((has_power_inputs df /\ pd.has_column df2 "power_W" = true) \/
     (~ has_power_inputs df /\ df2 = df)).
Proof.
  unfold ProcessThrustMap.add_power_if_possible, has_power_inputs.
  fold voltage_aliases current_aliases.
  destruct (ProcessThrustMap.pick_column df voltage_aliases) as [v|] eqn:P1.
  - destruct (ProcessThrustMap.pick_column df current_aliases) as [c|] eqn:P2.
    + apply pick_column_has in P1 as [I1 C1]. apply pick_column_has in P2 as [I2 C2].
      destruct (proj1 (get_Some_has df v) C1) as [vs Hv].
      destruct (proj1 (get_Some_has df c) C2) as [cs Hc].
      rewrite (getitem_get _ _ _ Hv), (getitem_get _ _ _ Hc). cbn [rbind].
      eexists. split; [reflexivity|]. split.
      * intros d Hd. now apply columns_setitem_incl.
      * left. split.
        -- split; [exists v | exists c]; split; auto; now apply has_column_In.
        -- apply get_Some_has. eexists. apply get_setitem_same.
    + exists df. split; [reflexivity|]. split; auto. right. split; auto.
      intros [_ (c & Ic & Hc)].
      now apply (proj1 (pick_column_none df current_aliases) P2 c).
  - exists df. split; [reflexivity|]. split; auto. right. split; auto.
    intros [(v & Iv & Hv) _].
    now apply (proj1 (pick_column_none df voltage_aliases) P1 v).
Qed.

Lemma drop_none_In (c : string) (l : list (option string)) :
  In c (ProcessThrustMap.drop_none l) <-> In (Some c) l.
Proof.
  induction l as [|[x|] t IH]; simpl; [tauto| |].
  - rewrite IH. split; intros [H|H]; auto; left; congruence.
  - rewrite IH. split; [auto | intros [H|H]; [discriminate | auto]].
Qed.

Lemma option_string_eqb_eq (a b : option string) :
  ProcessThrustMap.option_string_eqb a b = true <-> a = b.
Proof.
  destruct a as [x|], b as [y|]; simpl; try (split; congruence).
  rewrite String.eqb_eq. split; congruence.
Qed.

Lemma kept_headers_In (df : DataFrame) (tc thr rpm : option string) (c : string) :
  In c (kept_headers df tc thr rpm) <->
  (In (Some c) [Some "time_s"; thr; rpm; tc;
                Some "voltage_V"; Some "current_A"; Some "power_W"] /\
   (pd.has_column df c = true \/ Some c = tc \/ Some c = thr \/ Some c = rpm)).
Proof.
  unfold kept_headers. rewrite drop_none_In, filter_In.
  cbn [ProcessThrustMap.in_columns existsb].
  rewrite !orb_true_iff, !option_string_eqb_eq. intuition congruence.
Qed.

Lemma kept_headers_present (df : DataFrame) (tc thr rpm : option string) :
  (forall t, tc = Some t -> pd.has_column df t = true) ->
  (forall t, thr = Some t -> pd.has_column df t = true) ->
  (forall t, rpm = Some t -> pd.has_column df t = true) ->
  forall c, In c (kept_headers df tc thr rpm) -> pd.has_column df c = true.
Proof.
  intros H1 H2 H3 c Hc. apply kept_headers_In in Hc as [_ [H|[H|[H|H]]]]; auto.
Qed.

(** The whole run of process_thrust_map, from the normalised table. *)
Lemma thrust_map_run (argsort : list cell -> list nat) (root : string)
    (df df1 df2 : DataFrame) (tc : option string) (args : ProcessThrustMap.Args) :
  (forall a, np.sorts a (argsort a)) ->
  ProcessThrustMap.ensure_thrust_newton df = Ok (df1, tc) ->
  ProcessThrustMap.add_power_if_possible df1 = Ok df2 ->
  (forall t, tc = Some t -> pd.has_column df2 t = true) ->
  let thr := ProcessThrustMap.pick_column df2 throttle_aliases in
  let rpm := ProcessThrustMap.pick_column df2 rpm_aliases in
  let keep := kept_headers df2 tc thr rpm in
  run (ProcessThrustMap.main argsort root df args)
  = match keep with
    | [] => ([], Raise (SystemExit 1))
    | _ :: _ =>
        ((mapping_file argsort (ProcessThrustMap.thrust_is_numeric df) df2 thr tc "throttle_pct"
            (thrust_map_path root args "throttle")
          ++ mapping_file argsort (ProcessThrustMap.thrust_is_numeric df) df2 rpm tc "rpm" (thrust_map_path root args "rpm")
          ++ clean_file df2 keep (thrust_map_path root args "clean"))%list,
         Ok tt)
    end.
Proof.
  intros S He Hp Htc thr rpm keep.
  assert (Hthr : forall t, thr = Some t -> pd.has_column df2 t = true)
    by (intros t H; now apply pick_column_has in H).
  assert (Hrpm : forall t, rpm = Some t -> pd.has_column df2 t = true)
    by (intros t H; now apply pick_column_has in H).
  assert (Hsel : pd.select df2 keep = Ok (projection df2 keep))
    by (apply select_projection, kept_headers_present; assumption).
  assert (K1 : forall t, thr = Some t -> In t keep).
  { intros t E. apply kept_headers_In. rewrite E. simpl. auto 8. }
  assert (K2 : forall t, rpm = Some t -> In t keep).
  { intros t E. apply kept_headers_In. rewrite E. simpl. auto 8. }
  unfold run, ProcessThrustMap.main, io_bind, io_lift, io_ret, io_raise, to_csv.
  rewrite He, Hp. fold throttle_aliases rpm_aliases. fold thr rpm.
  change (ProcessThrustMap.drop_none _) with keep.
  unfold mapping_file, clean_file, thrust_map_path.
  destruct thr as [k1|] eqn:E1, rpm as [k2|] eqn:E2, tc as [t|] eqn:E3;
    repeat match goal with
      | |- context [ProcessThrustMap.thrust_mapping ?x1 ?x0 ?x2 ?x3 ?x4 ?x5] =>
          let T := fresh "T" in let HT := fresh "HT" in
          destruct (thrust_mapping_total x1 x0 x2 x3 x4 x5 S) as [T HT];
          [solve [auto] | solve [auto] | rewrite HT]
      end;
    destruct keep as [|c keep'] eqn:EK;
    try (exfalso; solve [eapply K1; eauto | eapply K2; eauto]);
    try rewrite Hsel; reflexivity.
Qed.

Lemma has_any_pick (df : DataFrame) (aliases : list string) :
  has_any df aliases = true <->
  exists a, ProcessThrustMap.pick_column df aliases = Some a.
Proof.
  unfold has_any. induction aliases as [|a t IH]; simpl.
  - split; [discriminate | intros [a H]; discriminate].
  - destruct (pd.has_column df a); simpl; [split; eauto | exact IH].
Qed.

Lemma has_any_In (df : DataFrame) (aliases : list string) :
  has_any df aliases = true <-> exists a, In a aliases /\ In a (pd.columns df).
Proof.
  unfold has_any. rewrite existsb_exists.
  split; intros (a & H1 & H2); exists a; split; auto; now apply has_column_In.
Qed.

Lemma has_any_false (df : DataFrame) (aliases : list string) :
  has_any df aliases = false <-> forall a, In a aliases -> ~ In a (pd.columns df).
Proof.
  split.
  - intros H a Ha Hc. assert (has_any df aliases = true) by (apply has_any_In; eauto).
    congruence.
  - intro H. destruct (has_any df aliases) eqn:E; auto.
    apply has_any_In in E as (a & Ha & Hc). now elim (H a Ha).
Qed.

Lemma has_column_setitem_inv (df : DataFrame) (c d : string) (s : Series) :
  pd.has_column (pd.setitem df c s) d = true -> pd.has_column df d = true \/ d = c.
Proof.
  intro H. destruct (String.eqb d c) eqn:E.
  - right. now apply String.eqb_eq.
  - left. apply String.eqb_neq in E. apply get_Some_has in H as [x Hx].
    rewrite get_setitem_other in Hx by assumption. apply get_Some_has. eauto.
Qed.

Lemma has_column_retitled_inv (df : DataFrame) (c new d : string) :
  pd.has_column (retitled df c new) d = true -> pd.has_column df d = true \/ d = new.
Proof.
  intro H. apply has_column_In in H. unfold retitled, pd.columns in H.
  rewrite map_map in H. simpl in H. apply in_map_iff in H as (p & E & Hp).
  destruct (String.eqb (fst p) c); [now right|].
  left. apply has_column_In. subst d. now apply in_map.
Qed.

(** Normalising the thrust adds no header but [thrust_N]. *)
Lemma ensure_thrust_newton_headers (df df1 : DataFrame) (tc : option string) (d : string) :
  ProcessThrustMap.ensure_thrust_newton df = Ok (df1, tc) ->
  pd.has_column df1 d = true -> pd.has_column df d = true \/ d = "thrust_N".
Proof.
  unfold ProcessThrustMap.ensure_thrust_newton.
  destruct (ProcessThrustMap.pick_column df _) as [c|].
  - intros [= <- _]. destruct (negb _); auto. rewrite rename_retitled.
    apply has_column_retitled_inv.
  - destruct (ProcessThrustMap.pick_column df _) as [c|].
    + destruct (pd.getitem df c); cbn [rbind]; [|discriminate].
      intros [= <- _]. apply has_column_setitem_inv.
    + destruct (ProcessThrustMap.pick_column df _) as [c|].
      * destruct (pd.getitem df c); cbn [rbind]; [|discriminate].
        intros [= <- _]. apply has_column_setitem_inv.
      * intros [= <- _]. auto.
Qed.

Lemma add_power_headers (df df2 : DataFrame) (d : string) :
  ProcessThrustMap.add_power_if_possible df = Ok df2 ->
  pd.has_column df2 d = true -> pd.has_column df d = true \/ d = "power_W".
Proof.
  unfold ProcessThrustMap.add_power_if_possible.
  destruct (ProcessThrustMap.pick_column df _) as [v|]; [|intros [= <-]; auto].
  destruct (ProcessThrustMap.pick_column df _) as [c|]; [|intros [= <-]; auto].
  destruct (pd.getitem df v); cbn [rbind]; [|discriminate].
  destruct (pd.getitem df c); cbn [rbind]; [|discriminate].
  intros [= <-]. apply has_column_setitem_inv.
Qed.

(** A header that is neither a thrust header nor [power_W] is in the
    normalised table exactly when it is in the input. *)
Lemma normalised_header (df df1 df2 : DataFrame) (tc : option string) (d : string) :
  ProcessThrustMap.ensure_thrust_newton df = Ok (df1, tc) ->
  ProcessThrustMap.add_power_if_possible df1 = Ok df2 ->
  ~ In d thrust_aliases -> d <> "power_W" ->
  pd.has_column df2 d = pd.has_column df d.
Proof.
  intros He Hp N1 N2.
  destruct (ensure_thrust_newton_shape df) as (x & y & E & Inc & _).
  rewrite He in E. injection E as <- <-.
  destruct (add_power_shape df1) as (z & E & Inc2 & _).
  rewrite Hp in E. injection E as <-.
  destruct (pd.has_column df d) eqn:H.
  - apply Inc2, Inc; auto; intros ->; apply N1; unfold thrust_aliases; simpl; auto.
  - destruct (pd.has_column df2 d) eqn:H2; auto.
    apply (add_power_headers _ _ _ Hp) in H2 as [H2| ->]; [|congruence].
    apply (ensure_thrust_newton_headers _ _ _ _ He) in H2 as [H2| ->]; [congruence|].
    exfalso. apply N1. unfold thrust_aliases. simpl. auto.
Qed.

Lemma has_any_normalised (df df1 df2 : DataFrame) (tc : option string)
    (aliases : list string) :
  ProcessThrustMap.ensure_thrust_newton df = Ok (df1, tc) ->
  ProcessThrustMap.add_power_if_possible df1 = Ok df2 ->
  (forall a, In a aliases -> ~ In a thrust_aliases /\ a <> "power_W") ->
  has_any df2 aliases = has_any df aliases.
Proof.
  intros He Hp N. unfold has_any. induction aliases as [|a t IH]; simpl; auto.
  rewrite IH by (intros; apply N; now right).
  destruct (N a (or_introl eq_refl)) as [N1 N2].
  now rewrite (normalised_header df df1 df2 tc a He Hp N1 N2).
Qed.

Lemma has_power_inputs_normalised (df df1 : DataFrame) (tc : option string) :
  ProcessThrustMap.ensure_thrust_newton df = Ok (df1, tc) ->
  has_power_inputs df1 -> has_power_inputs df.
Proof.
  intros He [(v & Iv & Hv) (c & Ic & Hc)].
  apply has_column_In in Hv, Hc.
  apply (ensure_thrust_newton_headers _ _ _ _ He) in Hv, Hc.
  split; [exists v | exists c]; split; auto; apply has_column_In.
  - destruct Hv as [ | -> ]; auto. simpl in Iv. intuition discriminate.
  - destruct Hc as [ | -> ]; auto. simpl in Ic. intuition discriminate.
Qed.




Lemma thrust_col_reported (df df1 : DataFrame) (tc : option string) :
  ProcessThrustMap.ensure_thrust_newton df = Ok (df1, tc) ->
  (tc = Some "thrust_N" /\ has_any df thrust_aliases = true /\
   pd.has_column df1 "thrust_N" = true) \/
  (tc = None /\ has_any df thrust_aliases = false /\ df1 = df).
Proof.
  intro He. destruct (ensure_thrust_newton_shape df) as (x & y & E & _ & Sh).
  rewrite He in E. injection E as <- <-.
  destruct Sh as [(-> & H & a & Ia & Ha)|(-> & -> & N)].
  - left. repeat split; auto. apply has_any_In. eauto.
  - right. repeat split; auto. now apply has_any_false.
Qed.



Lemma pick_has_any (df : DataFrame) (aliases : list string) :
  has_any df aliases
  = match ProcessThrustMap.pick_column df aliases with Some _ => true | None => false end.
Proof.
  unfold has_any. induction aliases as [|a t IH]; simpl; auto.
  destruct (pd.has_column df a); simpl; auto.
Qed.

(** X2.  A run of process_thrust_map that ends normally has written, in
    this order: the throttle table if the input has a throttle header
    and a thrust header, the rpm table if it has an rpm header and a
    thrust header, and always the clean table, each under the output
    directory with the [--name] suffix. *)
Theorem thrust_map_files_written (argsort : list cell -> list nat) (root : string)
    (df : DataFrame) (args : ProcessThrustMap.Args) (w : list csv_file) :
  (forall a, np.sorts a (argsort a)) ->
  run (ProcessThrustMap.main argsort root df args) = (w, Ok tt) ->
  map fst w
  = ((if has_any df throttle_aliases && has_any df thrust_aliases
      then [thrust_map_path root args "throttle"] else [])
     ++ (if has_any df rpm_aliases && has_any df thrust_aliases
         then [thrust_map_path root args "rpm"] else [])
     ++ [thrust_map_path root args "clean"])%list.
Proof.
  intros S.
  destruct (ensure_thrust_newton_shape df) as (df1 & tc & He & _ & _).
  destruct (add_power_shape df1) as (df2 & Hp & Inc2 & _).
  pose proof (thrust_col_reported _ _ _ He) as R.
  assert (Htc : forall t, tc = Some t -> pd.has_column df2 t = true).
  { intros t ->. destruct R as [(E & _ & H)|(E & _)]; [|discriminate].
    injection E as ->. now apply Inc2. }
  rewrite (thrust_map_run argsort root df df1 df2 tc args S He Hp Htc).
  assert (A1 : has_any df2 throttle_aliases = has_any df throttle_aliases).
  { apply (has_any_normalised df df1 df2 tc); auto.
    intros a Ha. simpl in Ha. unfold thrust_aliases. simpl.
    intuition (subst; discriminate). }
  assert (A2 : has_any df2 rpm_aliases = has_any df rpm_aliases).
  { apply (has_any_normalised df df1 df2 tc); auto.
    intros a Ha. simpl in Ha. unfold thrust_aliases. simpl.
    intuition (subst; discriminate). }
  rewrite <- A1, <- A2.
  rewrite (pick_has_any df2 throttle_aliases), (pick_has_any df2 rpm_aliases).
  unfold mapping_file, clean_file.
  destruct (ProcessThrustMap.pick_column df2 throttle_aliases) as [k1|] eqn:P1,
    (ProcessThrustMap.pick_column df2 rpm_aliases) as [k2|] eqn:P2;
    destruct R as [(-> & -> & H)|(-> & -> & _)]; cbn [andb];
    repeat match goal with
      | |- context [ProcessThrustMap.thrust_mapping ?x1 ?x0 ?x2 ?x3 ?x4 ?x5] =>
          let T := fresh "T" in let HT := fresh "HT" in
          destruct (thrust_mapping_total x1 x0 x2 x3 x4 x5 S) as [T HT];
          [solve [eapply pick_column_has; eauto] | solve [auto] | rewrite HT]
      end;
    (destruct (kept_headers df2 _ _ _) as [|c l]; [discriminate|]);
    intros [= <-]; reflexivity.
Qed.

Lemma thrust_map_files_written_witness :
  let df := [("throttle", [q 10; q 20; q 10]); ("thrust_g", [q 500; q 900; None])] in
  let args := {| ProcessThrustMap.input := "log.csv";
                 ProcessThrustMap.name := "m";
                 ProcessThrustMap.outdir := Some "out" |} in
  map fst (fst (run (ProcessThrustMap.main np.argsort "/repo" df args)))
  = ((if has_any df throttle_aliases && has_any df thrust_aliases
      then [thrust_map_path "/repo" args "throttle"] else [])
     ++ (if has_any df rpm_aliases && has_any df thrust_aliases
         then [thrust_map_path "/repo" args "rpm"] else [])
     ++ [thrust_map_path "/repo" args "clean"])%list.
Proof.
  intros df args.
  apply (thrust_map_files_written np.argsort "/repo" df args).
  - exact argsort_sorts.
  - rewrite surjective_pairing at 1. apply f_equal. vm_compute. reflexivity.
Defined.

Lemma drop_none_filter (df : DataFrame) (P : option string -> bool)
    (l : list (option string)) :
  (forall c, In (Some c) l -> P (Some c) = pd.has_column df c) ->
  ProcessThrustMap.drop_none (filter P l)
  = filter (pd.has_column df) (ProcessThrustMap.drop_none l).
Proof.
  induction l as [|[c|] t IH]; intro H; simpl; auto.
  - rewrite (H c (or_introl eq_refl)).
    destruct (pd.has_column df c); simpl; rewrite IH; auto;
      intros; apply H; now right.
  - destruct (P None); simpl; apply IH; intros; apply H; now right.
Qed.

Lemma kept_headers_filter (df : DataFrame) (tc thr rpm : option string) :
  (forall t, tc = Some t -> pd.has_column df t = true) ->
  (forall t, thr = Some t -> pd.has_column df t = true) ->
  (forall t, rpm = Some t -> pd.has_column df t = true) ->
  kept_headers df tc thr rpm
  = filter (pd.has_column df) (clean_candidates tc thr rpm).
Proof.
  intros H1 H2 H3. unfold kept_headers, clean_candidates.
  apply drop_none_filter. intros c _.
  cbn [ProcessThrustMap.in_columns existsb].
  destruct (pd.has_column df c) eqn:E; auto. cbn [orb].
  repeat (apply orb_false_iff; split); auto;
    apply not_true_is_false; intro Q; apply option_string_eqb_eq in Q;
    symmetry in Q; [apply H1 in Q | apply H2 in Q | apply H3 in Q]; congruence.
Qed.

Lemma columns_projection (df : DataFrame) (cs : list string) :
  pd.columns (projection df cs) = cs.
Proof.
  unfold pd.columns, projection. rewrite map_map. simpl. apply map_id.
Qed.

Lemma get_projection (df : DataFrame) (cs : list string) (c : string) :
  In c cs -> pd.has_column df c = true ->
  pd.get (projection df cs) c = pd.get df c.
Proof.
  intros I H. unfold projection. rewrite (get_mapped (column df)) by assumption.
  apply get_Some_has in H as [s Hs]. unfold column. now rewrite Hs.
Qed.

(** X3.  The clean table, written last by every run of process_thrust_map
    that ends normally, has the headers of the normalised table among
    [time_s], the throttle column, the rpm column, [thrust_N],
    [voltage_V], [current_A], [power_W], in that order, and every one of
    its columns is that column of the normalised table, all rows kept. *)
Theorem thrust_map_clean_table (argsort : list cell -> list nat) (root : string)
    (df df1 df2 : DataFrame) (tc : option string) (args : ProcessThrustMap.Args)
    (w : list csv_file) :
  (forall a, np.sorts a (argsort a)) ->
  ProcessThrustMap.ensure_thrust_newton df = Ok (df1, tc) ->
  ProcessThrustMap.add_power_if_possible df1 = Ok df2 ->
  run (ProcessThrustMap.main argsort root df args) = (w, Ok tt) ->
  exists pre clean,
    w = (pre ++ [(thrust_map_path root args "clean", clean)])%list /\
    pd.columns clean
    = filter (pd.has_column df2)
        (clean_candidates tc (ProcessThrustMap.pick_column df2 throttle_aliases)
           (ProcessThrustMap.pick_column df2 rpm_aliases)) /\
    (forall c, In c (pd.columns clean) -> pd.get clean c = pd.get df2 c).
Proof.
  intros S He Hp.
  destruct (add_power_shape df1) as (z & E & Inc2 & _).
  rewrite Hp in E. injection E as <-.
  assert (Htc : forall t, tc = Some t -> pd.has_column df2 t = true).
  { intros t ->. destruct (thrust_col_reported _ _ _ He) as [(E & _ & H)|(E & _)];
      [|discriminate]. injection E as ->. now apply Inc2. }
  assert (Hthr : forall t, ProcessThrustMap.pick_column df2 throttle_aliases = Some t ->
                 pd.has_column df2 t = true)
    by (intros t H; now apply pick_column_has in H).
  assert (Hrpm : forall t, ProcessThrustMap.pick_column df2 rpm_aliases = Some t ->
                 pd.has_column df2 t = true)
    by (intros t H; now apply pick_column_has in H).
  rewrite (thrust_map_run argsort root df df1 df2 tc args S He Hp Htc).
  rewrite <- (kept_headers_filter df2 tc _ _ Htc Hthr Hrpm).
  pose proof (kept_headers_present df2 tc _ _ Htc Hthr Hrpm) as Pres.
  destruct (kept_headers df2 tc _ _) as [|c l]; [discriminate|].
  intros [= <-]. rewrite app_assoc. unfold clean_file.
  exists (mapping_file argsort (ProcessThrustMap.thrust_is_numeric df) df2 (ProcessThrustMap.pick_column df2 throttle_aliases)
            tc "throttle_pct" (thrust_map_path root args "throttle")
          ++ mapping_file argsort (ProcessThrustMap.thrust_is_numeric df) df2 (ProcessThrustMap.pick_column df2 rpm_aliases)
               tc "rpm" (thrust_map_path root args "rpm"))%list,
    (projection df2 (c :: l)).
  split; [reflexivity|]. split; [apply columns_projection|].
  intros d Hd. rewrite columns_projection in Hd.
  apply get_projection; auto.
Qed.

Lemma thrust_map_clean_table_witness :
  let df := [("throttle", [q 10; q 20; q 10]); ("thrust", [q 5; q 9; None]);
             ("V", [q 12; q 12; q 11]); ("I", [q 1; q 2; q 1])] in
  let df1 := [("throttle", [q 10; q 20; q 10]); ("thrust_N", [q 5; q 9; None]);
              ("V", [q 12; q 12; q 11]); ("I", [q 1; q 2; q 1])] in
  let df2 := pd.setitem df1 "power_W"
               (zip_with cell_mul [q 12; q 12; q 11] [q 1; q 2; q 1]) in
  let args := {| ProcessThrustMap.input := "log.csv";
                 ProcessThrustMap.name := "m";
                 ProcessThrustMap.outdir := None |} in
  exists pre clean,
    fst (run (ProcessThrustMap.main np.argsort "/repo" df args))
    = (pre ++ [(thrust_map_path "/repo" args "clean", clean)])%list /\
    pd.columns clean
    = filter (pd.has_column df2)
        (clean_candidates (Some "thrust_N")
           (ProcessThrustMap.pick_column df2 throttle_aliases)
           (ProcessThrustMap.pick_column df2 rpm_aliases)) /\
    (forall c, In c (pd.columns clean) -> pd.get clean c = pd.get df2 c).
Proof.
  intros df df1 df2 args.
  apply (thrust_map_clean_table np.argsort "/repo" df df1 df2 (Some "thrust_N") args).
  - exact argsort_sorts.
  - reflexivity.
  - reflexivity.
  - rewrite surjective_pairing at 1. apply f_equal. vm_compute. reflexivity.
Defined.

(** ** Normalising twice *)

(** X4.  [ensure_thrust_newton] is idempotent: on the table it returned
    it returns the same table and the same reported column. *)
Theorem ensure_thrust_newton_idempotent (df df1 : DataFrame) (tc : option string) :
  ProcessThrustMap.ensure_thrust_newton df = Ok (df1, tc) ->
  ProcessThrustMap.ensure_thrust_newton df1 = Ok (df1, tc).
Proof.
  intro He. destruct (thrust_col_reported _ _ _ He) as [(-> & _ & H)|(-> & _ & ->)].
  - unfold ProcessThrustMap.ensure_thrust_newton. simpl. now rewrite H.
  - exact He.
Qed.

Lemma ensure_thrust_newton_idempotent_witness :
  let df := [("rpm", [q 1000; q 2000]); ("force_g", [q 100; None])] in
  let df1 := (df ++ [("thrust_N", map (cell_scale (Q2Qc (980665 # 100000000)))
                                     [q 100; None])])%list in
  ProcessThrustMap.ensure_thrust_newton df1 = Ok (df1, Some "thrust_N").
Proof.
  intros df df1.
  apply (ensure_thrust_newton_idempotent df df1 (Some "thrust_N")).
  reflexivity.
Defined.

Lemma pick_column_setitem (df : DataFrame) (c : string) (s : Series)
    (aliases : list string) :
  ~ In c aliases ->
  ProcessThrustMap.pick_column (pd.setitem df c s) aliases
  = ProcessThrustMap.pick_column df aliases.
Proof.
  induction aliases as [|a t IH]; intro N; simpl; auto.
  assert (E : pd.has_column (pd.setitem df c s) a = pd.has_column df a).
  { destruct (pd.has_column df a) eqn:H.
    - now apply columns_setitem_incl.
    - destruct (pd.has_column (pd.setitem df c s) a) eqn:H2; auto.
      apply has_column_setitem_inv in H2 as [H2| ->]; [congruence|].
      exfalso. apply N. now left. }
  rewrite E, IH; auto. intro H. apply N. now right.
Qed.

Lemma setitem_twice (df : DataFrame) (c : string) (s r : Series) :
  pd.setitem (pd.setitem df c s) c r = pd.setitem df c r.
Proof.
  induction df as [|[n o] t IH]; simpl.
  - now rewrite String.eqb_refl.
  - destruct (String.eqb c n) eqn:E; simpl; rewrite E; auto. now rewrite IH.
Qed.

(** X5.  [add_power_if_possible] is idempotent: deriving the power again
    from a table that already went through it changes nothing. *)
Theorem add_power_idempotent (df df2 : DataFrame) :
  ProcessThrustMap.add_power_if_possible df = Ok df2 ->
  ProcessThrustMap.add_power_if_possible df2 = Ok df2.
Proof.
  unfold ProcessThrustMap.add_power_if_possible.
  fold voltage_aliases current_aliases.
  destruct (ProcessThrustMap.pick_column df voltage_aliases) as [v|] eqn:P1;
    [|intros [= E]; subst df2; now rewrite P1].
  destruct (ProcessThrustMap.pick_column df current_aliases) as [c|] eqn:P2;
    [|intros [= E]; subst df2; now rewrite P1, P2].
  destruct (pd.getitem df v) as [vs|] eqn:G1; cbn [rbind]; [|discriminate].
  destruct (pd.getitem df c) as [cs|] eqn:G2; cbn [rbind]; [|discriminate].
  intros [= <-].
  pose proof (pick_column_has _ _ _ P1) as [I1 _].
  pose proof (pick_column_has _ _ _ P2) as [I2 _].
  rewrite !pick_column_setitem, P1, P2
    by (unfold voltage_aliases, current_aliases; simpl; intuition discriminate).
  assert (N1 : v <> "power_W") by (simpl in I1; intuition (subst; discriminate)).
  assert (N2 : c <> "power_W") by (simpl in I2; intuition (subst; discriminate)).
  unfold pd.getitem in *. rewrite !get_setitem_other by assumption.
  destruct (pd.get df v); [|discriminate]. destruct (pd.get df c); [|discriminate].
  cbn [rbind]. injection G1 as ->. injection G2 as ->. now rewrite setitem_twice.
Qed.

Lemma add_power_idempotent_witness :
  let df := [("voltage", [q 12; q 11]); ("current", [q 2; None])] in
  let df2 := (df ++ [("power_W", zip_with cell_mul [q 12; q 11] [q 2; None])])%list in
  ProcessThrustMap.add_power_if_possible df2 = Ok df2.
Proof.
  intros df df2. apply (add_power_idempotent df df2). reflexivity.
Defined.
(** ** convert_thrust_lookup: inversion with missing values and odd lengths *)




Lemma combine_firstn_r {A B} (l : list A) (r : list B) :
  combine l (firstn (List.length l) r) = combine l r.
Proof.
  revert r. induction l as [|a l IH]; intros [|b r]; simpl; auto.
  now rewrite IH.
Qed.

(** X7.  When the two arrays differ in length: a [force] array shorter
    than [cmd] makes the inversion raise [IndexError]; of a longer one
    only the first [len(cmd)] entries are used. *)
Theorem invert_unequal_lengths (argsort : list cell -> list nat)
    (cmd force : list cell) :
  (forall a, np.sorts a (argsort a)) ->
  ((List.length force < List.length cmd)%nat ->
   ConvertThrustLookup.invert_cmd_vs_force_to_force_vs_cmd argsort cmd force
   = Raise IndexError) /\
  ((List.length cmd <= List.length force)%nat ->
   ConvertThrustLookup.invert_cmd_vs_force_to_force_vs_cmd argsort cmd force
   = ConvertThrustLookup.invert_cmd_vs_force_to_force_vs_cmd argsort cmd
       (firstn (List.length cmd) force)).
Proof.
  intro S. split; intro L.
  - now apply invert_short.
  - rewrite !invert_ok; auto.
    + now rewrite combine_firstn_r.
    + rewrite length_firstn. lia.
Qed.

Lemma invert_unequal_lengths_witness :
  ConvertThrustLookup.invert_cmd_vs_force_to_force_vs_cmd np.argsort
    [q 7; q 5; q 7] [q 1; q 2]
  = Raise IndexError.
Proof.
  apply (proj1 (invert_unequal_lengths np.argsort [q 7; q 5; q 7] [q 1; q 2]
                  argsort_sorts)).
  simpl. lia.
Defined.

(** ** convert_thrust_lookup: the grid table *)

(** X9.  [melt_grid] returns a table exactly when the grid holds
    [len(voltages) * len(forces)] cells, whatever the shape of its rows;
    otherwise it raises the [ValueError] of mismatched column lengths. *)
Theorem melt_grid_checks_size (voltages forces : list cell) (Z : list (list cell)) :
  let cells := List.length (List.concat Z) in
  let n := (List.length voltages * List.length forces)%nat in
  (cells = n ->
   exists V F,
     ConvertThrustLookup.melt_grid voltages forces Z
     = Ok [("voltage_V", V); ("force_N", F); ("cmd", List.concat Z)] /\
     List.length V = n /\ List.length F = n) /\
  (cells <> n ->
   ConvertThrustLookup.melt_grid voltages forces Z
   = Raise (ValueError LengthMismatch)).
Proof.
  intros cells n.
  unfold ConvertThrustLookup.melt_grid, np.meshgrid_ij_ravel, np.ravel.
  rewrite flat_map_concat_map.
  set (V := List.concat (map (fun x => repeat x (List.length forces)) voltages)).
  set (F := List.concat (repeat forces (List.length voltages))).
  assert (LV : List.length V = n).
  { unfold V. rewrite (length_concat_uniform (List.length forces)).
    - now rewrite length_map.
    - apply Forall_forall. intros r Hr. apply in_map_iff in Hr as (x & <- & _).
      apply repeat_length. }
  assert (LF : List.length F = n).
  { unfold F. rewrite (length_concat_uniform (List.length forces)).
    - now rewrite repeat_length.
    - apply Forall_forall. intros r Hr. apply repeat_spec in Hr. now subst. }
  unfold pd.from_arrays. cbn [forallb snd]. rewrite LV, LF, Nat.eqb_refl.
  fold cells. cbn [andb]. split; intro H.
  - exists V, F. rewrite H, Nat.eqb_refl. auto.
  - apply Nat.eqb_neq in H. now rewrite H.
Qed.

Lemma melt_grid_checks_size_witness :
  ConvertThrustLookup.melt_grid [q 3; q 4] [q 0; q 10] [[q 5; q 7]; [q 6; q 6]; [q 1; q 2]]
  = Raise (ValueError LengthMismatch).
Proof.
  apply (proj2 (melt_grid_checks_size [q 3; q 4] [q 0; q 10]
                  [[q 5; q 7]; [q 6; q 6]; [q 1; q 2]])).
  simpl. lia.
Defined.
(** ** convert_thrust_lookup: the shape of the throttle curve *)












(** ** convert_thrust_lookup: reading the lookup file *)

Lemma linspace_axis (lo hi : Qc) (n : nat) :
  (1 <= n)%nat ->
  np.linspace (Some lo) (Some hi) (Z.of_nat n) = Ok (map Some (axis lo hi n)).
Proof.
  intro H. destruct (Nat.eq_dec n 1) as [->|N].
  - unfold np.linspace, axis, edge. simpl. reflexivity.
  - replace (Z.of_nat n) with (Z.of_nat n - 1 + 1)%Z at 1 by lia.
    rewrite linspace_edges by lia. unfold axis, edges.
    replace (S (Z.to_nat (Z.of_nat n - 1))) with n by lia. reflexivity.
Qed.

Lemma axis_length (lo hi : Qc) (n : nat) : List.length (axis lo hi n) = n.
Proof. unfold axis. now rewrite length_map, length_seq. Qed.

Lemma axis_first (lo hi : Qc) (n : nat) :
  (1 <= n)%nat -> hd_error (axis lo hi n) = Some lo.
Proof.
  intro H. unfold axis. destruct n; [lia|]. simpl. f_equal. apply edge_first.
Qed.

Lemma axis_last (lo hi : Qc) (n : nat) :
  (2 <= n)%nat -> last (axis lo hi n) lo = hi.
Proof.
  intro H. unfold axis.
  replace n with (S (n - 1)) at 2 by lia.
  rewrite seq_S, map_app. cbn [map]. rewrite last_last. simpl.
  replace (n - 1)%nat with (Z.to_nat (Z.of_nat n - 1)) by lia.
  apply edge_last. lia.
Qed.

Lemma axis_sorted (lo hi : Qc) (n : nat) :
  lo < hi -> (2 <= n)%nat -> StronglySorted Qclt (axis lo hi n).
Proof.
  intros L H. unfold axis. apply edges_sorted_from; [assumption | lia].
Qed.

Lemma slice_rows (N M : nat) (rows : list (list cell)) :
  (N <= M)%nat -> List.length rows = N ->
  Forall (fun r => List.length r = M) rows ->
  (if negb (Z.of_nat (List.length rows) =? Z.of_nat N)%Z
      || negb (Z.of_nat M =? Z.of_nat N)%Z
   then map (np.slice_to (Z.of_nat N)) rows else rows)
  = map (firstn N) rows.
Proof.
  intros L R F. rewrite R, Z.eqb_refl. cbn [negb orb].
  destruct (Z.of_nat M =? Z.of_nat N)%Z eqn:E; cbn [negb].
  - apply Z.eqb_eq in E. assert (M = N) by lia. subst M.
    rewrite <- (map_id rows) at 1. apply map_ext_in. intros r Hr.
    rewrite Forall_forall in F. symmetry. apply firstn_all2.
    rewrite (F r Hr). lia.
  - apply map_ext. intro r. unfold np.slice_to.
    assert ((0 <=? Z.of_nat N)%Z = true) as -> by (apply Z.leb_le; lia).
    now rewrite Nat2Z.id.
Qed.

(** What [read_lookup] returns on a file laid out as its docstring says. *)
Lemma read_lookup_ok (meta : list cell) (rows : list (list cell)) (n : Qc)
    (N M : nat) (f0 f1 v0 v1 : Qc) :
  nth_error meta 0 = Some (Some n) -> round_half_even n = Z.of_nat N ->
  nth_error meta 1 = Some (Some f0) -> nth_error meta 2 = Some (Some f1) ->
  nth_error meta 3 = Some (Some v0) -> nth_error meta 4 = Some (Some v1) ->
  (1 <= N)%nat -> (N <= M)%nat ->
  List.length meta = M -> List.length rows = N ->
  Forall (fun r => List.length r = M) rows ->
  ConvertThrustLookup.read_lookup (meta :: rows)
  = Ok (map Some (axis v0 v1 N), map Some (axis f0 f1 N), map (firstn N) rows,
        {| ConvertThrustLookup.meta_N := Z.of_nat N;
           ConvertThrustLookup.fmin := Some f0;
           ConvertThrustLookup.fmax := Some f1;
           ConvertThrustLookup.vmin := Some v0;
           ConvertThrustLookup.vmax := Some v1 |}).
Proof.
  intros H0 Hr H1 H2 H3 H4 HN HM Lm Lr F.
  assert (5 <= M)%nat.
  { assert (4 < List.length meta)%nat
      by (apply nth_error_Some; rewrite H4; discriminate).
    lia. }
  unfold ConvertThrustLookup.read_lookup.
  assert (Nat.ltb (List.length (meta :: rows)) 2 = false) as ->
    by (apply Nat.ltb_ge; simpl; lia).
  assert (Nat.ltb (List.length meta) 2 = false) as ->
    by (apply Nat.ltb_ge; lia).
  cbn [orb]. unfold ConvertThrustLookup.item.
  rewrite H0, H1, H2, H3, H4. cbn [rbind int_round]. rewrite Hr. cbn [rbind].
  rewrite Lm, (slice_rows N M rows HM Lr F).
  rewrite !linspace_axis by assumption. reflexivity.
Qed.

(** X10.  On a lookup file laid out as the docstring of [read_lookup]
    says (a meta row [N, minForce, maxForce, minVoltage, maxVoltage, ...]
    of numbers, then N rows; every row of the same M >= N entries),
    [read_lookup] returns an N-by-N grid, the first N entries of each
    row, and two axes of N equally spaced values that start at the
    stated minimum and, for N >= 2, end at the stated maximum. *)
Theorem read_lookup_well_formed (meta : list cell) (rows : list (list cell))
    (n : Qc) (N M : nat) (f0 f1 v0 v1 : Qc) :
  nth_error meta 0 = Some (Some n) -> round_half_even n = Z.of_nat N ->
  nth_error meta 1 = Some (Some f0) -> nth_error meta 2 = Some (Some f1) ->
  nth_error meta 3 = Some (Some v0) -> nth_error meta 4 = Some (Some v1) ->
  (1 <= N)%nat -> (N <= M)%nat ->
  List.length meta = M -> List.length rows = N ->
  Forall (fun r => List.length r = M) rows ->
  exists vs fs Z m,
    ConvertThrustLookup.read_lookup (meta :: rows) = Ok (map Some vs, map Some fs, Z, m) /\
    Z = map (firstn N) rows /\
    List.length Z = N /\ Forall (fun r => List.length r = N) Z /\
    List.length vs = N /\ List.length fs = N /\
    hd_error vs = Some v0 /\ hd_error fs = Some f0 /\
    ((2 <= N)%nat -> last vs v0 = v1 /\ last fs f0 = f1) /\
    (forall i, (i < N)%nat ->
       nth_error fs i = Some (f0 + (f1 - f0) * (Z2Qc (Z.of_nat i) / Z2Qc (Z.of_nat N - 1))) /\
       nth_error vs i = Some (v0 + (v1 - v0) * (Z2Qc (Z.of_nat i) / Z2Qc (Z.of_nat N - 1)))).
Proof.
  intros H0 Hr H1 H2 H3 H4 HN HM Lm Lr F.
  rewrite (read_lookup_ok meta rows n N M f0 f1 v0 v1) by assumption.
  eexists _, _, _, _. split; [reflexivity|]. split; [reflexivity|].
  split; [now rewrite length_map|]. split.
  { apply Forall_forall. intros r Hr'. apply in_map_iff in Hr' as (r0 & <- & H).
    rewrite Forall_forall in F. rewrite length_firstn, (F r0 H). lia. }
  split; [apply axis_length|]. split; [apply axis_length|].
  split; [now apply axis_first|]. split; [now apply axis_first|].
  split; [intro; split; now apply axis_last|].
  intros i Hi. unfold axis.
  split; (erewrite map_nth_error; [reflexivity|]);
    rewrite nth_error_seq; apply Nat.ltb_lt in Hi; now rewrite Hi.
Qed.

Lemma read_lookup_well_formed_witness :
  let meta := [q 2; q 0; q 10; q 3; q 4; q 0] in
  let rows := [[q 5; q 7; q 0; q 0; q 0; q 0]; [q 6; q 6; q 0; q 0; q 0; q 0]] in
  exists vs fs Z m,
    ConvertThrustLookup.read_lookup (meta :: rows) = Ok (map Some vs, map Some fs, Z, m) /\
    Z = map (firstn 2) rows /\
    List.length Z = 2%nat /\ Forall (fun r => List.length r = 2%nat) Z /\
    List.length vs = 2%nat /\ List.length fs = 2%nat /\
    hd_error vs = Some (Z2Qc 3) /\ hd_error fs = Some (Z2Qc 0) /\
    ((2 <= 2)%nat -> last vs (Z2Qc 3) = Z2Qc 4 /\ last fs (Z2Qc 0) = Z2Qc 10) /\
    (forall i, (i < 2)%nat ->
       nth_error fs i
       = Some (Z2Qc 0 + (Z2Qc 10 - Z2Qc 0)
                        * (Z2Qc (Z.of_nat i) / Z2Qc (Z.of_nat 2 - 1))) /\
       nth_error vs i
       = Some (Z2Qc 3 + (Z2Qc 4 - Z2Qc 3)
                        * (Z2Qc (Z.of_nat i) / Z2Qc (Z.of_nat 2 - 1)))).
Proof.
  intros meta rows.
  apply (read_lookup_well_formed meta rows (Z2Qc 2) 2 6); try reflexivity.
  - lia.
  - lia.
  - repeat constructor.
Defined.

(** X11.  What [read_lookup] refuses: a file of a single row or a single
    column ([IndexError], the array is not two-dimensional); a NaN in
    place of N ([ValueError]); fewer than five entries in the meta row
    ([IndexError]); a negative N ([ValueError] from [np.linspace]). *)
Theorem read_lookup_refuses (meta : list cell) (rows : list (list cell)) :
  (rows = [] \/ (List.length meta < 2)%nat ->
   ConvertThrustLookup.read_lookup (meta :: rows) = Raise IndexError) /\
  (rows <> [] -> (2 <= List.length meta)%nat -> nth_error meta 0 = Some None ->
   ConvertThrustLookup.read_lookup (meta :: rows) = Raise (ValueError NaNToInteger)) /\
  (forall n, rows <> [] -> (2 <= List.length meta < 5)%nat ->
     nth_error meta 0 = Some (Some n) ->
     ConvertThrustLookup.read_lookup (meta :: rows) = Raise IndexError) /\
  (forall n, rows <> [] -> (5 <= List.length meta)%nat ->
     nth_error meta 0 = Some (Some n) -> (round_half_even n < 0)%Z ->
     ConvertThrustLookup.read_lookup (meta :: rows)
     = Raise (ValueError NegativeSampleCount)).
Proof.
  assert (G : forall i, (i < List.length meta)%nat ->
              exists c, nth_error meta i = Some c).
  { intros i Hi. destruct (nth_error meta i) eqn:E; eauto.
    apply nth_error_None in E. lia. }
  assert (B : rows <> [] -> (2 <= List.length meta)%nat ->
              Nat.ltb (List.length (meta :: rows)) 2 || Nat.ltb (List.length meta) 2 = false).
  { intros R L. apply orb_false_iff. split; apply Nat.ltb_ge; auto.
    destruct rows; [contradiction | simpl; lia]. }
  unfold ConvertThrustLookup.read_lookup, ConvertThrustLookup.item.
  split; [|split; [|split]].
  - intros [->|L].
    + reflexivity.
    + apply Nat.ltb_lt in L. rewrite L. now rewrite orb_true_r.
  - intros R L H0. rewrite (B R L), H0. reflexivity.
  - intros n R [L U] H0. rewrite (B R L), H0. cbn [rbind int_round].
    assert (N4 : nth_error meta 4 = None) by (apply nth_error_None; lia).
    rewrite N4.
    destruct (nth_error meta 1); cbn [rbind]; auto.
    destruct (nth_error meta 2); cbn [rbind]; auto.
    destruct (nth_error meta 3); cbn [rbind]; auto.
  - intros n R L H0 Neg. rewrite (B R ltac:(lia)), H0. cbn [rbind int_round].
    destruct (G 1%nat ltac:(lia)) as [c1 ->], (G 2%nat ltac:(lia)) as [c2 ->],
      (G 3%nat ltac:(lia)) as [c3 ->], (G 4%nat ltac:(lia)) as [c4 ->].
    cbn [rbind]. unfold np.linspace.
    apply Z.ltb_lt in Neg. now rewrite Neg.
Qed.

Lemma read_lookup_refuses_witness :
  ConvertThrustLookup.read_lookup [[q 3; q 0; q 10]; [q 1; q 2; q 3]]
  = Raise IndexError.
Proof.
  apply (proj1 (proj2 (proj2 (read_lookup_refuses [q 3; q 0; q 10] [[q 1; q 2; q 3]])))
           (Z2Qc 3)).
  - discriminate.
  - simpl. lia.
  - reflexivity.
Defined.
(** ** convert_thrust_lookup: choosing the voltage slice *)

Lemma argmin_from_numbers (ds : list Qc) (best i : nat) (b : Qc) :
  (best < i)%nat ->
  let r := np.argmin_from best (Some b) i (map Some ds) in
  let m := if Nat.eqb r best then b else nth (r - i) ds 0 in
  (r = best \/ (i <= r < i + List.length ds)%nat) /\
  m <= b /\ Forall (Qcle m) ds.
Proof.
  revert best i b. induction ds as [|d ds IH]; intros best i b Hb; simpl.
  - rewrite Nat.eqb_refl. split; auto. split; [apply Qcle_refl | constructor].
  - destruct (Qcltb d b) eqn:E.
    + destruct (IH i (S i) d ltac:(lia)) as (R & M & F).
      set (r := np.argmin_from i (Some d) (S i) (map Some ds)) in *.
      apply Qcltb_lt in E.
      assert (Nat.eqb r best = false) as -> by (apply Nat.eqb_neq; lia).
      assert (Em : (if Nat.eqb r i then d else nth (r - S i) ds 0)
                   = match (r - i)%nat with 0%nat => d | S k => nth k ds 0 end).
      { destruct (Nat.eqb r i) eqn:Q.
        - apply Nat.eqb_eq in Q. rewrite Q. now rewrite Nat.sub_diag.
        - apply Nat.eqb_neq in Q. replace (r - i)%nat with (S (r - S i)) by lia.
          reflexivity. }
      rewrite <- Em. split; [right; lia|]. split.
      * eapply Qcle_trans; [exact M|]. now apply Qclt_le_weak.
      * constructor; auto.
    + destruct (IH best (S i) b ltac:(lia)) as (R & M & F).
      set (r := np.argmin_from best (Some b) (S i) (map Some ds)) in *.
      apply Qcltb_ge in E.
      assert (Em : (if Nat.eqb r best then b else nth (r - S i) ds 0)
                   = if Nat.eqb r best then b
                     else match (r - i)%nat with 0%nat => d | S k => nth k ds 0 end).
      { destruct (Nat.eqb r best) eqn:Q; auto.
        apply Nat.eqb_neq in Q. replace (r - i)%nat with (S (r - S i)) by lia.
        reflexivity. }
      rewrite <- Em. split; [lia|]. split; auto.
      constructor; auto. eapply Qcle_trans; eauto.
Qed.

(** [np.argmin] on numbers: an index of a least element. *)
Lemma argmin_numbers (ds : list Qc) :
  ds <> [] ->
  exists r m, np.argmin (map Some ds) = Ok r /\ nth_error ds r = Some m /\
              Forall (Qcle m) ds.
Proof.
  destruct ds as [|d ds]; [congruence|]. intros _. simpl.
  destruct (argmin_from_numbers ds 0 1 d ltac:(lia)) as (R & M & F).
  set (r := np.argmin_from 0 (Some d) 1 (map Some ds)) in *.
  exists r. destruct (Nat.eqb r 0) eqn:Q.
  - apply Nat.eqb_eq in Q. rewrite Q. exists d. repeat split; auto.
  - apply Nat.eqb_neq in Q. exists (nth (r - 1) ds 0). split; auto. split.
    + destruct r; [congruence|]. simpl. rewrite Nat.sub_0_r.
      apply nth_error_nth'. lia.
    + constructor; auto.
Qed.

Lemma item_numbers (vs : list Qc) (i : nat) (v : Qc) :
  nth_error vs i = Some v -> ConvertThrustLookup.item (map Some vs) i = Ok (Some v).
Proof.
  intro H. pose proof (map_nth_error Some i vs H) as E.
  unfold ConvertThrustLookup.item, cell in *. now rewrite E.
Qed.

(** The slice [slice_voltage_curve] returns, for numeric voltages. *)
Lemma slice_ok (vs : list Qc) (forces : list cell) (Z : list (list cell))
    (target : option Qc) :
  vs <> [] -> (List.length vs <= List.length Z)%nat ->
  exists idx v row,
    ConvertThrustLookup.slice_voltage_curve (map Some vs) forces Z target
    = Ok (Some v, forces, row) /\
    nth_error vs idx = Some v /\ nth_error Z idx = Some row /\
    match target with
    | None => idx = (List.length vs / 2)%nat
    | Some t => forall v', In v' vs -> distance v t <= distance v' t
    end.
Proof.
  intros NE L. unfold ConvertThrustLookup.slice_voltage_curve.
  assert (Fin : forall idx v, nth_error vs idx = Some v ->
            exists row, nth_error Z idx = Some row /\
              (let? v_sel := ConvertThrustLookup.item (map Some vs) idx in
               let? cmd_row := match nth_error Z idx with
                               | Some r => Ok r
                               | None => Raise IndexError
                               end in
               Ok (v_sel, forces, cmd_row)) = Ok (Some v, forces, row)).
  { intros idx v H.
    assert (idx < List.length Z)%nat as Hz.
    { apply Nat.lt_le_trans with (List.length vs); auto.
      apply nth_error_Some. congruence. }
    destruct (nth_error Z idx) as [row|] eqn:E; [|apply nth_error_None in E; lia].
    exists row. split; auto. now rewrite (item_numbers vs idx v H). }
  destruct target as [t|].
  - rewrite map_map.
    change (map (fun x => cell_abs (cell_sub (Some x) (Some t))) vs)
      with (map (fun x => Some (distance x t)) vs).
    rewrite <- (map_map (fun x => distance x t) Some).
    destruct (argmin_numbers (map (fun x => distance x t) vs)) as (r & m & -> & Hm & F).
    { destruct vs; [congruence | discriminate]. }
    cbn [rbind]. rewrite nth_error_map in Hm.
    destruct (nth_error vs r) as [v|] eqn:Hv; [|discriminate].
    injection Hm as <-. destruct (Fin r v Hv) as (row & Hz & ->).
    exists r, v, row. repeat split; auto.
    intros v' Hv'. rewrite Forall_forall in F. apply F.
    now apply (in_map (fun x => distance x t)).
  - cbn [rbind].
    assert (List.length vs / 2 < List.length vs)%nat as Hi.
    { destruct vs; [congruence|]. apply Nat.div_lt; simpl; lia. }
    destruct (nth_error vs (List.length vs / 2)) as [v|] eqn:Hv;
      [|apply nth_error_None in Hv; lia].
    rewrite length_map. destruct (Fin _ v Hv) as (row & Hz & ->).
    exists (List.length vs / 2)%nat, v, row. auto.
Qed.

(** X12.  On numeric voltages, with as many grid rows as voltages,
    [slice_voltage_curve] returns a voltage of the axis, the row of the
    grid at the same index, and the force axis unchanged; without a
    target the index is [len(voltages) // 2], with a target no voltage
    of the axis is nearer to it than the returned one. *)
Theorem slice_picks_nearest_voltage (vs : list Qc) (forces : list cell)
    (Z : list (list cell)) (target : option Qc) :
  vs <> [] -> (List.length vs <= List.length Z)%nat ->
  exists idx v row,
    ConvertThrustLookup.slice_voltage_curve (map Some vs) forces Z target
    = Ok (Some v, forces, row) /\
    nth_error vs idx = Some v /\ nth_error Z idx = Some row /\
    match target with
    | None => idx = (List.length vs / 2)%nat
    | Some t => forall v', In v' vs -> distance v t <= distance v' t
    end.
Proof. exact (slice_ok vs forces Z target). Qed.

Lemma slice_picks_nearest_voltage_witness :
  exists idx v row,
    ConvertThrustLookup.slice_voltage_curve (map Some [Z2Qc 10; Z2Qc 12; Z2Qc 14])
      [q 0; q 1] [[q 1; q 2]; [q 3; q 4]; [q 5; q 6]] (Some (Z2Qc 13))
    = Ok (Some v, [q 0; q 1], row) /\
    nth_error [Z2Qc 10; Z2Qc 12; Z2Qc 14] idx = Some v /\
    nth_error [[q 1; q 2]; [q 3; q 4]; [q 5; q 6]] idx = Some row /\
    forall v', In v' [Z2Qc 10; Z2Qc 12; Z2Qc 14] ->
               distance v (Z2Qc 13) <= distance v' (Z2Qc 13).
Proof.
  apply (slice_picks_nearest_voltage [Z2Qc 10; Z2Qc 12; Z2Qc 14] [q 0; q 1]
           [[q 1; q 2]; [q 3; q 4]; [q 5; q 6]] (Some (Z2Qc 13))).
  - discriminate.
  - simpl. lia.
Defined.
(** ** convert_thrust_lookup: the run as a whole *)

Lemma in_firstn {A} (x : A) (n : nat) (l : list A) :
  In x (firstn n l) -> In x l.
Proof.
  revert l. induction n as [|n IH]; intros l H; [destruct H|].
  destruct l as [|y l]; [destruct H|]. destruct H as [H|H]; [now left|].
  right. now apply IH.
Qed.

Lemma insert_uniq_length (x : Qc) (l : list Qc) :
  (List.length (insert_uniq x l) <= S (List.length l))%nat.
Proof.
  induction l as [|y t IH]; simpl; auto.
  destruct (x ?= y); simpl; lia.
Qed.

Lemma sort_uniq_length (l : list Qc) :
  (List.length (sort_uniq l) <= List.length l)%nat.
Proof.
  induction l as [|x t IH]; simpl; auto.
  pose proof (insert_uniq_length x (sort_uniq t)). lia.
Qed.

Lemma numbers_length (l : list cell) :
  (List.length (numbers l) <= List.length l)%nat.
Proof. induction l as [|[x|] t IH]; simpl; lia. Qed.

Lemma melt_grid_sized (voltages forces : list cell) (Z : list (list cell)) :
  List.length (List.concat Z) = (List.length voltages * List.length forces)%nat ->
  exists V F,
    ConvertThrustLookup.melt_grid voltages forces Z
    = Ok [("voltage_V", V); ("force_N", F); ("cmd", List.concat Z)] /\
    List.length V = List.length (List.concat Z).
Proof.
  intro H.
  unfold ConvertThrustLookup.melt_grid, np.meshgrid_ij_ravel, np.ravel.
  rewrite flat_map_concat_map.
  set (V := List.concat (map (fun x => repeat x (List.length forces)) voltages)).
  set (F := List.concat (repeat forces (List.length voltages))).
  assert (LV : List.length V = (List.length voltages * List.length forces)%nat).
  { unfold V. rewrite (length_concat_uniform (List.length forces)).
    - now rewrite length_map.
    - apply Forall_forall. intros r Hr. apply in_map_iff in Hr as (x & <- & _).
      apply repeat_length. }
  assert (LF : List.length F = (List.length voltages * List.length forces)%nat).
  { unfold F. rewrite (length_concat_uniform (List.length forces)).
    - now rewrite repeat_length.
    - apply Forall_forall. intros r Hr. apply repeat_spec in Hr. now subst. }
  exists V, F. split; [|congruence].
  unfold pd.from_arrays. cbn [forallb snd]. now rewrite LV, LF, H, !Nat.eqb_refl.
Qed.

Lemma from_arrays_four (a b c d : string) (s1 s2 s3 s4 : Series) :
  List.length s2 = List.length s1 -> List.length s3 = List.length s1 ->
  List.length s4 = List.length s1 ->
  pd.from_arrays [(a, s1); (b, s2); (c, s3); (d, s4)]
  = Ok [(a, s1); (b, s2); (c, s3); (d, s4)].
Proof.
  intros L2 L3 L4. unfold pd.from_arrays. cbn [forallb snd].
  now rewrite L2, L3, L4, !Nat.eqb_refl.
Qed.

(** The throttle normalisation on a curve that has a point. *)
Lemma normalize_nonempty (x : Qc) (t : list Qc) (min_cmd max_cmd : option cell) :
  exists span pct,
    ConvertThrustLookup.normalize_throttle (map Some (x :: t)) min_cmd max_cmd
    = Ok (span, pct) /\
    List.length pct = List.length (x :: t).
Proof.
  unfold ConvertThrustLookup.normalize_throttle, np.min, np.max.
  destruct min_cmd as [mn|], max_cmd as [mx|];
    rewrite ?reduce_numbers; cbn [rbind];
    eexists _, _; (split; [reflexivity | now rewrite !length_map]).
Qed.

(** X13.  On a lookup file laid out as the docstring of [read_lookup]
    says, with numbers in every cell, a run of convert_thrust_lookup
    ends normally and writes two files: the long table, with columns
    [voltage_V], [force_N], [cmd] and N*N rows, then the throttle curve,
    with columns [cmd], [throttle_pct], [thrust_N], [voltage_V], between
    1 and N rows, and one voltage of the axis down its last column. *)
Theorem lookup_run_writes_both_tables (argsort : list cell -> list nat)
    (root : string) (args : ConvertThrustLookup.Args)
    (meta : list cell) (rows : list (list cell)) (n : Qc)
    (N M : nat) (f0 f1 v0 v1 : Qc) :
  (forall a, np.sorts a (argsort a)) ->
  nth_error meta 0 = Some (Some n) -> round_half_even n = Z.of_nat N ->
  nth_error meta 1 = Some (Some f0) -> nth_error meta 2 = Some (Some f1) ->
  nth_error meta 3 = Some (Some v0) -> nth_error meta 4 = Some (Some v1) ->
  (1 <= N)%nat -> (N <= M)%nat ->
  List.length meta = M -> List.length rows = N ->
  Forall (fun r => List.length r = M) rows ->
  Forall (Forall numeric) rows ->
  exists V F C cmd pct thrust v k,
    run (ConvertThrustLookup.main argsort root (meta :: rows) args)
    = ([(lookup_path root args "thrust_lookup_long_",
         [("voltage_V", V); ("force_N", F); ("cmd", C)]);
        (lookup_path root args "thrustmap_throttle_from_lookup_",
         [("cmd", cmd); ("throttle_pct", pct); ("thrust_N", thrust);
          ("voltage_V", repeat (Some v) k)])],
       Ok tt) /\
    List.length V = (N * N)%nat /\ List.length F = (N * N)%nat /\
    List.length C = (N * N)%nat /\
    List.length cmd = k /\ List.length pct = k /\ List.length thrust = k /\
    (1 <= k <= N)%nat /\ In v (axis v0 v1 N).
Proof.
  intros S H0 Hr H1 H2 H3 H4 HN HM Lm Lr Fr Fn.
  set (Z := map (firstn N) rows).
  assert (LZ : List.length Z = N) by (unfold Z; now rewrite length_map).
  assert (UZ : Forall (fun r => List.length r = N) Z).
  { apply Forall_forall. intros r Hr'. apply in_map_iff in Hr' as (r0 & <- & H).
    rewrite Forall_forall in Fr. rewrite length_firstn, (Fr r0 H). lia. }
  assert (NZ : Forall (Forall numeric) Z).
  { apply Forall_forall. intros r Hr'. apply in_map_iff in Hr' as (r0 & <- & H).
    rewrite Forall_forall in Fn. specialize (Fn r0 H).
    rewrite Forall_forall in *. intros c Hc. apply Fn. eapply in_firstn; eauto. }
  assert (CZ : List.length (List.concat Z) = (N * N)%nat)
    by (rewrite (length_concat_uniform N) by assumption; now rewrite LZ).
  destruct (melt_grid_sized (map Some (axis v0 v1 N)) (map Some (axis f0 f1 N)) Z)
    as (V & F & Hmelt & LV).
  { now rewrite CZ, !length_map, !axis_length. }
  assert (LF : List.length F = (N * N)%nat).
  { unfold ConvertThrustLookup.melt_grid, np.meshgrid_ij_ravel in Hmelt.
    unfold pd.from_arrays in Hmelt. cbn [forallb snd] in Hmelt.
    destruct (Nat.eqb (List.length _) (List.length _)) eqn:E in Hmelt;
      [|discriminate].
    apply Nat.eqb_eq in E. destruct (_ && _) in Hmelt; [|discriminate].
    injection Hmelt as <- <-. rewrite E. rewrite flat_map_concat_map.
    rewrite (length_concat_uniform N), !length_map, !axis_length; auto.
    apply Forall_forall. intros r Hr'. apply in_map_iff in Hr' as (x & <- & _).
    rewrite repeat_length, length_map. apply axis_length. }
  destruct (slice_ok (axis v0 v1 N) (map Some (axis f0 f1 N)) Z
              (ConvertThrustLookup.voltage args))
    as (idx & v & row & Hslice & Hv & Hrow & _).
  { intro E. pose proof (axis_length v0 v1 N) as L. rewrite E in L. simpl in L. lia. }
  { rewrite axis_length. lia. }
  assert (Lrow : List.length row = N).
  { rewrite Forall_forall in UZ. apply UZ. eapply nth_error_In; eauto. }
  assert (Nrow : Forall numeric row).
  { rewrite Forall_forall in NZ. apply NZ. eapply nth_error_In; eauto. }
  assert (Hinv : exists x t means,
             ConvertThrustLookup.invert_cmd_vs_force_to_force_vs_cmd argsort row
               (map Some (axis f0 f1 N)) = Ok (map Some (x :: t), means) /\
             List.length means = List.length (x :: t) /\
             (List.length (x :: t) <= N)%nat).
  { rewrite invert_ok by (auto; rewrite length_map, axis_length; lia).
    unfold group_table. cbn [fst snd].
    rewrite map_fst_combine by now rewrite length_map, axis_length.
    destruct (sort_uniq (numbers row)) as [|x t] eqn:EG.
    - exfalso.
      assert (Y : exists y, In (Some y) row).
      { destruct row as [|[y|] row']; [simpl in Lrow; lia | |].
        - exists y. now left.
        - inversion Nrow as [|? ? Hc]. now elim Hc. }
      destruct Y as [y Hy]. apply numbers_In, sort_uniq_In in Hy.
      rewrite EG in Hy. destruct Hy.
    - exists x, t. eexists. split; [reflexivity|]. split; [apply length_map|].
      rewrite <- EG. pose proof (sort_uniq_length (numbers row)).
      pose proof (numbers_length row). lia. }
  destruct Hinv as (x & t & means & Hinv & Lmeans & Lk).
  destruct (normalize_nonempty x t (ConvertThrustLookup.min_cmd args)
              (ConvertThrustLookup.max_cmd args)) as (span & ps & Hnorm & Lps).
  exists V, F, (List.concat Z), (map Some (x :: t)), ps, means, v,
    (List.length (x :: t)).
  split.
  - unfold run, ConvertThrustLookup.main, io_bind, io_lift, to_csv.
    rewrite (read_lookup_ok meta rows n N M f0 f1 v0 v1) by assumption.
    fold Z. cbv beta iota. rewrite Hmelt. cbv beta iota.
    rewrite Hslice. cbv beta iota. rewrite Hinv. cbv beta iota.
    rewrite Hnorm. cbv beta iota.
    rewrite from_arrays_four; rewrite ?length_map, ?repeat_length; auto.
  - rewrite !length_map.
    repeat split; auto;
      try solve [exact (eq_trans LV CZ) | simpl in *; lia
                | eapply nth_error_In; eauto].
Qed.

Lemma lookup_run_writes_both_tables_witness :
  let meta := [q 2; q 0; q 10; q 3; q 4; q 0] in
  let rows := [[q 5; q 7; q 0; q 0; q 0; q 0]; [q 6; q 6; q 0; q 0; q 0; q 0]] in
  let args := {| ConvertThrustLookup.input := "thrust_map.csv";
                 ConvertThrustLookup.name := "a";
                 ConvertThrustLookup.outdir := Some "out";
                 ConvertThrustLookup.voltage := Some (Z2Qc 3);
                 ConvertThrustLookup.min_cmd := None;
                 ConvertThrustLookup.max_cmd := None |} in
  exists V F C cmd pct thrust v k,
    run (ConvertThrustLookup.main np.argsort "/repo" (meta :: rows) args)
    = ([(lookup_path "/repo" args "thrust_lookup_long_",
         [("voltage_V", V); ("force_N", F); ("cmd", C)]);
        (lookup_path "/repo" args "thrustmap_throttle_from_lookup_",
         [("cmd", cmd); ("throttle_pct", pct); ("thrust_N", thrust);
          ("voltage_V", repeat (Some v) k)])],
       Ok tt) /\
    List.length V = (2 * 2)%nat /\ List.length F = (2 * 2)%nat /\
    List.length C = (2 * 2)%nat /\
    List.length cmd = k /\ List.length pct = k /\ List.length thrust = k /\
    (1 <= k <= 2)%nat /\ In v (axis (Z2Qc 3) (Z2Qc 4) 2).
Proof.
  intros meta rows args.
  apply (lookup_run_writes_both_tables np.argsort "/repo" args meta rows
           (Z2Qc 2) 2 6 (Z2Qc 0) (Z2Qc 10) (Z2Qc 3) (Z2Qc 4));
    try reflexivity.
  - exact argsort_sorts.
  - lia.
  - lia.
  - repeat constructor.
  - repeat constructor; discriminate.
Defined.
(** ** Runs of process_efficiency that fail after the column check *)

Lemma map_constant {A B} (f : A -> B) (b : B) (l : list A) :
  (forall x, In x l -> f x = b) -> map f l = repeat b (List.length l).
Proof.
  induction l as [|a t IH]; simpl; intro H; [reflexivity|].
  rewrite H by auto. f_equal. apply IH. auto.
Qed.

Lemma linspace_flat (lo : Qc) (num : Z) :
  (0 <= num)%Z ->
  np.linspace (Some lo) (Some lo) num = Ok (repeat (Some lo) (Z.to_nat num)).
Proof.
  intro H. unfold np.linspace.
  destruct (num <? 0)%Z eqn:E; [apply Z.ltb_lt in E; lia|].
  f_equal.
  replace (repeat (Some lo) (Z.to_nat num))
    with (repeat (Some lo) (List.length (seq 0 (Z.to_nat num))))
    by now rewrite length_seq.
  apply map_constant. intros i _. cbv zeta.
  destruct ((0 <? num - 1)%Z && (Z.of_nat i =? num - 1)%Z); [reflexivity|].
  destruct (0 <? num - 1)%Z; simpl; f_equal; ring.
Qed.

Lemma monotonic_repeat (x : Qc) (n : nat) :
  pd.is_monotonic_increasing (repeat (Some x) n) = true.
Proof.
  induction n as [|n IH]; [reflexivity|].
  change (repeat (Some x) (S n)) with (Some x :: repeat (Some x) n).
  destruct n as [|n]; [reflexivity|].
  change (repeat (Some x) (S n)) with (Some x :: repeat (Some x) n) in *.
  cbn [pd.is_monotonic_increasing] in *. rewrite IH, andb_true_r.
  apply Qcleb_le, Qcle_refl.
Qed.

Lemma numbers_repeat (x : Qc) (n : nat) :
  numbers (repeat (Some x) n) = repeat x n.
Proof. induction n; simpl; congruence. Qed.

Lemma sort_uniq_repeat (x : Qc) (n : nat) : sort_uniq (repeat x (S n)) = [x].
Proof.
  induction n as [|n IH]; [reflexivity|].
  change (sort_uniq (repeat x (S (S n))))
    with (insert_uniq x (sort_uniq (repeat x (S n)))).
  rewrite IH. simpl.
  assert ((x ?= x) = Eq) as -> by (now apply Qceq_alt). reflexivity.
Qed.

Lemma cut_flat (x : Series) (lo : Qc) (n : nat) :
  (3 <= n)%nat ->
  pd.cut x (repeat (Some lo) n) = Raise (ValueError BinEdgesNotUnique).
Proof.
  intro H. unfold pd.cut. rewrite monotonic_repeat. cbn [negb].
  rewrite numbers_repeat.
  destruct n as [|n]; [lia|]. rewrite sort_uniq_repeat, repeat_length.
  replace (Nat.ltb (List.length [lo]) (S n)) with true
    by (symmetry; apply Nat.ltb_lt; simpl; lia).
  replace (Nat.eqb (S n) 2) with false
    by (symmetry; apply Nat.eqb_neq; lia).
  reflexivity.
Qed.

Lemma speed_present (df : DataFrame) :
  ProcessEfficiency.lacks_required df = false ->
  exists speed, pd.get df "speed_mps" = Some speed.
Proof.
  unfold ProcessEfficiency.lacks_required. intro H.
  apply orb_false_iff in H as [H _]. apply negb_false_iff in H.
  now apply get_Some_has.
Qed.

(** X15.  When the 5th and the 95th percentile of the speed coincide
    (a log flown at one speed, a log of one row) and at least two bins
    are asked for, all bin edges are equal: the run of
    process_efficiency ends in the [ValueError] of [pd.cut] for edges
    that are not unique, although the required columns are present, and
    no file is written. *)
Theorem efficiency_needs_speed_spread (ints : list string) (df df' : DataFrame)
    (args : ProcessEfficiency.Args) (speed : Series) (v : Qc) :
  ProcessEfficiency.derive_power ints df = Ok df' ->
  ProcessEfficiency.lacks_required df' = false ->
  pd.get df' "speed_mps" = Some speed ->
  pd.quantile speed (Q2Qc (5 # 100)) = Some v ->
  pd.quantile speed (Q2Qc (95 # 100)) = Some v ->
  (2 <= ProcessEfficiency.bins args)%Z ->
  run (ProcessEfficiency.main ints df args)
  = ([], Raise (ValueError BinEdgesNotUnique)).
Proof.
  intros Hd Hl Hs Hlo Hhi Hn.
  unfold run, ProcessEfficiency.main, io_bind, io_lift, io_raise.
  rewrite Hd, Hl. unfold ProcessEfficiency.aggregate, ProcessEfficiency.bin_and_average.
  rewrite (getitem_get _ _ _ Hs). cbn [rbind]. rewrite Hlo, Hhi.
  rewrite linspace_flat by lia. cbn [rbind].
  rewrite cut_flat by lia. reflexivity.
Qed.

Lemma efficiency_needs_speed_spread_witness :
  let df := [("speed_mps", [q 5; q 5; None; q 5]);
             ("thrust_sum_N", [q 10; q 12; q 11; q 9])] in
  let args := {| ProcessEfficiency.input := "log.csv";
                 ProcessEfficiency.name := "hover";
                 ProcessEfficiency.outdir := "data";
                 ProcessEfficiency.bins := 12 |} in
  run (ProcessEfficiency.main [] df args)
  = ([], Raise (ValueError BinEdgesNotUnique)).
Proof.
  intros df args.
  apply (efficiency_needs_speed_spread [] df df args [q 5; q 5; None; q 5] (Z2Qc 5)).
  - reflexivity.
  - reflexivity.
  - reflexivity.
  - apply cell_eq_by_value. vm_compute. reflexivity.
  - apply cell_eq_by_value. vm_compute. reflexivity.
  - simpl. lia.
Defined.

(** X16.  A bin count below -1 makes [np.linspace] refuse its negative
    number of samples: the run of process_efficiency ends in that
    [ValueError] once the column check has passed, and no file is
    written. *)
Theorem efficiency_negative_bins (ints : list string) (df df' : DataFrame)
    (args : ProcessEfficiency.Args) :
  ProcessEfficiency.derive_power ints df = Ok df' ->
  ProcessEfficiency.lacks_required df' = false ->
  (ProcessEfficiency.bins args < -1)%Z ->
  run (ProcessEfficiency.main ints df args)
  = ([], Raise (ValueError NegativeSampleCount)).
Proof.
  intros Hd Hl Hn. destruct (speed_present _ Hl) as [speed Hs].
  unfold run, ProcessEfficiency.main, io_bind, io_lift, io_raise.
  rewrite Hd, Hl. unfold ProcessEfficiency.aggregate, ProcessEfficiency.bin_and_average.
  rewrite (getitem_get _ _ _ Hs). cbn [rbind]. unfold np.linspace.
  replace (ProcessEfficiency.bins args + 1 <? 0)%Z with true
    by (symmetry; apply Z.ltb_lt; lia).
  reflexivity.
Qed.

Lemma efficiency_negative_bins_witness :
  let df := [("speed_mps", [q 1; q 2; q 3]);
             ("voltage_V", [q 10; q 10; q 10]);
             ("current_A", [q 1; q 2; q 3])] in
  let args := {| ProcessEfficiency.input := "log.csv";
                 ProcessEfficiency.name := "x";
                 ProcessEfficiency.outdir := "data";
                 ProcessEfficiency.bins := -3 |} in
  run (ProcessEfficiency.main [] df args)
  = ([], Raise (ValueError NegativeSampleCount)).
Proof.
  intros df args.
  apply (efficiency_negative_bins [] df
           (df ++ [("power_W", [q 10; q 20; q 30])])%list args).
  - vm_compute. reflexivity.
  - reflexivity.
  - simpl. lia.
Defined.
